(** * Tirtha administrative surface: a shallow embedding of
      [tirtha_bk/tirtha/admin.py]

    The file embeds the Django [ModelAdmin] declarations of [admin.py]
    (field sets, read-only fields, inlines and bulk actions) together with
    the small part of the ORM and of the admin framework they rely on
    ([QuerySet.filter], [count], [update], the change form, inline form sets),
    and states the properties of the specification over that embedding. *)

From Stdlib Require Import Ascii.
From stdpp Require Import gmap strings list fin_maps pretty.

Open Scope string_scope.
Open Scope list_scope.
Open Scope nat_scope.

(** ** 1. Rows, tables and the schema *)

(** A column value.  Foreign keys and primary keys are stored as the string
    form of the referenced key, as in the [<field>_id] column. *)
Inductive value : Type :=
  | VNull
  | VBool (b : bool)
  | VInt (z : Z)
  | VStr (s : string).

#[global] Instance value_eq_dec : EqDecision value.
Proof. solve_decision. Defined.

(** A model instance is a mapping from field names to values; a table maps
    primary keys to instances. *)
Abbreviation row := (gmap string value).
Abbreviation table := (gmap string row).

(** [from .models import ARK, Contribution, Contributor, Image, Mesh, Run],
    plus the two automatic many-to-many tables [Run.images.through] and
    [Run.contributors.through] used by the Run inlines. *)
Inductive Model : Type :=
  | Mesh | Contributor | Contribution | Image | Run | ARK
  | Run_images | Run_contributors.

#[global] Instance Model_eq_dec : EqDecision Model.
Proof. solve_decision. Defined.

Abbreviation database := (Model → table).

Definition db_set (m : Model) (t : table) (db : database) : database :=
  λ m', if decide (m' = m) then t else db m'.

(** Modelled from the spec: [models.py], which declares the foreign keys, is
    not among the sources.  The list follows section 3 of the specification
    (a Contribution links one Contributor to one Mesh, an Image belongs to
    one Contribution, a Run belongs to one Mesh and references Images and
    Contributors, an ARK is one-to-one with a Run) and agrees with the
    attribute paths [admin.py] traverses: [obj.contribution.mesh],
    [obj.contribution.contributor], [obj.mesh] on a Run, [obj.run] on an
    ARK, [Run.images.through], [Run.contributors.through].  Each entry reads
    (referring model, column, referenced model). *)
Definition foreign_keys : list (Model * string * Model) :=
  [ (Contribution, "mesh", Mesh);
    (Contribution, "contributor", Contributor);
    (Image, "contribution", Contribution);
    (Run, "mesh", Mesh);
    (ARK, "run", Run);
    (Run_images, "run", Run);
    (Run_images, "image", Image);
    (Run_contributors, "run", Run);
    (Run_contributors, "contributor", Contributor) ].

Definition fk_target (m : Model) (f : string) : option Model :=
  (λ ie, ie.2.2) <$> list_find (λ e, e.1.1 = m ∧ e.1.2 = f) foreign_keys.

(** The columns of other models that point at [m]. *)
Definition referrers (m : Model) : list (Model * string) :=
  (λ e, e.1) <$> filter (λ e, e.2 = m) foreign_keys.

(** ** 2. Query sets *)

(** A keyword argument of [filter]: [Exact ["contribution"; "mesh"] v] is
    [contribution__mesh=v]; [PkIn s] is [pk__in=s], the form in which the
    admin hands the ticked rows to an action. *)
Inductive lookup : Type :=
  | Exact (path : list string) (v : value)
  | PkIn (pks : gset string).

Record QuerySet : Type := {
  qs_model : Model;
  qs_lookups : list lookup
}.

(** [Model.objects] *)
Definition objects (m : Model) : QuerySet :=
  {| qs_model := m; qs_lookups := [] |}.

(** [queryset.filter(...)] *)
Definition filter_ (lk : lookup) (qs : QuerySet) : QuerySet :=
  {| qs_model := qs_model qs; qs_lookups := qs_lookups qs ++ [lk] |}.

(** Value reached from a row by a [a__b__c] path; every step but the last
    follows a foreign key into the referenced table (an inner join). *)
Fixpoint follow (db : database) (m : Model) (path : list string) (r : row)
  : option value :=
  match path with
  | [] => None
  | f :: rest =>
      match rest with
      | [] => r !! f
      | _ :: _ =>
          match r !! f, fk_target m f with
          | Some (VStr k), Some m' =>
              match db m' !! k with
              | Some r' => follow db m' rest r'
              | None => None
              end
          | _, _ => None
          end
      end
  end.

Definition lookup_holds (db : database) (m : Model) (lk : lookup)
    (pk : string) (r : row) : bool :=
  match lk with
  | Exact path v => bool_decide (follow db m path r = Some v)
  | PkIn pks => bool_decide (pk ∈ pks)
  end.

Definition selects (db : database) (qs : QuerySet) (pk : string) (r : row)
  : bool :=
  forallb (λ lk, lookup_holds db (qs_model qs) lk pk r) (qs_lookups qs).

(** The rows a query set denotes in a given database state. *)
Definition evaluate (db : database) (qs : QuerySet) : table :=
  filter (λ kr, selects db qs kr.1 kr.2 = true) (db (qs_model qs)).

(** [queryset.all()], as the list of primary keys *)
Definition all (db : database) (qs : QuerySet) : list string :=
  (map_to_list (evaluate db qs)).*1.

(** [queryset.count()] *)
Definition count (db : database) (qs : QuerySet) : nat :=
  size (evaluate db qs).

(** [queryset.update(f=v)]: one UPDATE statement over the selected rows;
    returns the new database and the number of rows matched. *)
Definition update_rows (qs : QuerySet) (f : string) (v : value)
    (db : database)
  : database * nat :=
  (db_set (qs_model qs)
     (map_imap (λ pk r, Some (if selects db qs pk r then <[f:=v]> r else r))
        (db (qs_model qs)))
     db,
   count db qs).

(** ** 3. Requests, messages and the admin state *)

Inductive level : Type := DEBUG | INFO | SUCCESS | WARNING | ERROR.

Record message : Type := { msg_level : level; msg_text : string }.

(** One form of an inline form set: the row it edits, its DELETE box and
    the posted column values. *)
Record InlineForm : Type := {
  form_pk : string;
  form_DELETE : bool;
  form_data : gmap string value
}.

(** A request: the posted values of the main form and, for the change view,
    one list of inline forms per declared inline. *)
Record HttpRequest : Type := {
  POST : gmap string value;
  FORMSETS : list (list InlineForm)
}.

Record AdminState : Type := {
  st_db : database;
  st_messages : list message
}.

(** Admin methods run against the database and the message store. *)
Definition Admin (A : Type) : Type := AdminState → A * AdminState.

#[global] Instance Admin_ret : MRet Admin := λ A a st, (a, st).

#[global] Instance Admin_bind : MBind Admin :=
  λ A B k c st, let '(a, st') := c st in k a st'.

(** [queryset.update(f=v)] as an admin step. *)
Definition update (queryset : QuerySet) (f : string) (v : value)
  : Admin nat :=
  λ st, let '(db', n) := update_rows queryset f v (st_db st) in
        (n, {| st_db := db'; st_messages := st_messages st |}).

(** [self.message_user(request, text, level)] *)
Definition message_user (request : HttpRequest) (text : string) (lv : level)
  : Admin unit :=
  λ st, (tt, {| st_db := st_db st;
                st_messages :=
                  st_messages st ++
                    [{| msg_level := lv; msg_text := text |}] |}).

(** [ngettext(singular, plural, n)] with the default (English) plural rule. *)
Definition ngettext (singular plural : string) (n : nat) : string :=
  if decide (n = 1) then singular else plural.

(** [fmt % n] for a format with one [%d] conversion and one integer
    argument: the first [%d] is replaced by the decimal form of [n]. *)
Fixpoint percent (fmt : string) (n : nat) : string :=
  match fmt with
  | EmptyString => EmptyString
  | String c rest =>
      match rest with
      | String c' rest' =>
          if decide (c = "%"%char ∧ c' = "d"%char)
          then pretty n +:+ rest'
          else String c (percent rest n)
      | EmptyString => String c EmptyString
      end
  end.

(** ** 4. The admin framework: options, change form, inlines, deletion *)

(** Options of an [admin.TabularInline] subclass.  [inl_fields = None] is an
    inline that declares no [fields]: every column of the model is offered. *)
Record InlineModelAdmin : Type := {
  inl_model : Model;
  inl_fields : option (list string);
  inl_readonly_fields : list string;
  inl_extra : nat;
  inl_max_num : option nat;
  inl_can_delete : bool
}.

(** Options of an [admin.ModelAdmin] subclass.  A field set is a title and
    rows of field names, as in the nested tuples of the source. *)
Record ModelAdmin : Type := {
  adm_model : Model;
  adm_fieldsets : list (option string * list (list string));
  adm_readonly_fields : list string;
  adm_inlines : list InlineModelAdmin;
  adm_actions : list (HttpRequest → QuerySet → Admin unit);
  adm_list_filter : list string;
  adm_list_display : list string;
  adm_list_per_page : nat
}.

(** [flatten_fieldsets]: the field names of all rows of all field sets. *)
Definition flatten_fieldsets
    (fieldsets : list (option string * list (list string))) : list string :=
  concat (concat (fieldsets.*2)).

(** The fields of the generated form: those displayed and not read-only. *)
Definition form_fields (adm : ModelAdmin) : list string :=
  filter (λ f, f ∉ adm_readonly_fields adm)
    (flatten_fieldsets (adm_fieldsets adm)).

Definition inline_editable (inl : InlineModelAdmin) (f : string) : Prop :=
  match inl_fields inl with
  | Some fields => f ∈ fields ∧ f ∉ inl_readonly_fields inl
  | None => f ∉ inl_readonly_fields inl
  end.

#[global] Instance inline_editable_dec inl f : Decision (inline_editable inl f).
Proof. unfold inline_editable. destruct (inl_fields inl); apply _. Defined.

(** [construct_instance]: the posted values of the form's own fields
    overwrite the instance; every other column keeps its value. *)
Definition construct_instance (editable : string → Prop)
    `{!∀ f, Decision (editable f)}
    (cleaned_data : gmap string value) (r : row) : row :=
  filter (λ fv, editable fv.1) cleaned_data ∪ r.

(** Whether column [f] of a row holds one of the keys [pks]. *)
Definition refers_to (f : string) (pks : gset string) (r : row) : bool :=
  match r !! f with
  | Some (VStr k) => bool_decide (k ∈ pks)
  | _ => false
  end.

(** Deleting rows of [m], collecting every row that refers to a deleted one
    (taking [on_delete=CASCADE] on every foreign key, the policy under which
    a deletion reaches furthest).  The depth is bounded by the number of
    models, which exceeds the longest chain of [foreign_keys]. *)
Fixpoint delete_cascade (depth : nat) (db : database) (m : Model)
    (pks : gset string) : database :=
  match depth with
  | O => db
  | S depth' =>
      foldl
        (λ acc cf,
           delete_cascade depth' acc cf.1
             (dom (filter (λ kr, refers_to cf.2 pks kr.2 = true)
                     (acc cf.1))))
        (db_set m (filter (λ kr, kr.1 ∉ pks) (db m)) db)
        (referrers m)
  end.

Definition delete (db : database) (m : Model) (pks : gset string)
  : database :=
  delete_cascade 8 db m pks.

(** The column of [child] that points at [parent]. *)
Definition fk_name (child parent : Model) : option string :=
  (λ ie, ie.2.1.2) <$>
    list_find (λ e, e.1.1 = child ∧ e.2 = parent) foreign_keys.

(** A row of an inline belongs to the edited object when its foreign key
    holds the object's primary key. *)
Definition belongs (inl : InlineModelAdmin) (parent : Model)
    (object_id : string) (r : row) : bool :=
  match fk_name (inl_model inl) parent with
  | Some f => bool_decide (r !! f = Some (VStr object_id))
  | None => false
  end.

(** A form set is valid when each form edits an existing row of the edited
    object. *)
Definition formset_valid (db : database) (inl : InlineModelAdmin)
    (parent : Model) (object_id : string) (forms : list InlineForm) : bool :=
  forallb
    (λ fm, match db (inl_model inl) !! form_pk fm with
           | Some r => belongs inl parent object_id r
           | None => false
           end)
    forms.

(** Saving one inline form: the row is deleted when the inline allows
    deletion and the DELETE box is ticked, otherwise its editable columns
    are updated. *)
Definition save_inline_form (inl : InlineModelAdmin) (db : database)
    (fm : InlineForm) : database :=
  match db (inl_model inl) !! form_pk fm with
  | Some r =>
      if inl_can_delete inl && form_DELETE fm
      then delete db (inl_model inl) {[ form_pk fm ]}
      else db_set (inl_model inl)
             (<[ form_pk fm :=
                   construct_instance (inline_editable inl) (form_data fm) r ]>
                (db (inl_model inl)))
             db
  | None => db
  end.

Definition save_formset (db : database)
    (inl_forms : InlineModelAdmin * list InlineForm) : database :=
  foldl (save_inline_form inl_forms.1) db inl_forms.2.

(** The POST branch of [ModelAdmin.changeform_view] for an existing object
    whose form validates, [POST] being the cleaned values the form writes:
    when the form sets validate, the object is saved from the form and then
    each inline form set is saved.  Which posted values validate is fixed by
    the field types of [models.py]; a request that does not validate
    changes nothing. *)
Definition changeform_view (adm : ModelAdmin) (request : HttpRequest)
    (object_id : string) : Admin unit :=
  λ st,
    let db := st_db st in
    match db (adm_model adm) !! object_id with
    | None => (tt, st)
    | Some obj =>
        let formsets := zip (adm_inlines adm) (FORMSETS request) in
        if forallb
             (λ x, formset_valid db x.1 (adm_model adm) object_id x.2)
             formsets
        then
          let new_object :=
            construct_instance (λ f, f ∈ form_fields adm) (POST request) obj in
          let db1 :=
            db_set (adm_model adm)
              (<[ object_id := new_object ]> (db (adm_model adm))) db in
          (tt, {| st_db := foldl save_formset db1 formsets;
                  st_messages := st_messages st |})
        else (tt, st)
    end.

(** [delete_selected], the action Django's admin site offers on every
    change list, once confirmed: the selected rows are deleted, with the
    rows that refer to them. *)
Definition delete_selected (adm : ModelAdmin) (selected : list lookup)
  : Admin unit :=
  λ st,
    let queryset := {| qs_model := adm_model adm; qs_lookups := selected |} in
    (tt, {| st_db := delete (st_db st) (adm_model adm)
                       (dom (evaluate (st_db st) queryset));
            st_messages := st_messages st |}).

(** The delete view of one object, once confirmed. *)
Definition delete_view (adm : ModelAdmin) (object_id : string) : Admin unit :=
  λ st,
    (tt, {| st_db := delete (st_db st) (adm_model adm) {[ object_id ]};
            st_messages := st_messages st |}).

(** New rows are stored under keys that are not yet rows. *)
Definition add_rows (m : Model) (db : database) (rows : list (string * row))
  : database :=
  foldl
    (λ acc kr, match acc m !! kr.1 with
               | Some _ => acc
               | None => db_set m (<[ kr.1 := kr.2 ]> (acc m)) acc
               end)
    db rows.

(** The add view with a valid form: a new object of the page's model under
    a fresh key, and the new rows of its inline form sets.  What a new
    instance holds besides the form's cleaned values (its defaults) is fixed
    by [models.py], so the instances are taken as the view built them. *)
Definition add_view (adm : ModelAdmin) (object_id : string)
    (new_object : row) (inline_rows : list (list (string * row)))
  : Admin unit :=
  λ st,
    match st_db st (adm_model adm) !! object_id with
    | Some _ => (tt, st)
    | None =>
        (tt, {| st_db :=
                  foldl (λ acc x, add_rows (inl_model x.1) acc x.2)
                    (add_rows (adm_model adm) (st_db st)
                       [(object_id, new_object)])
                    (zip (adm_inlines adm) inline_rows);
                st_messages := st_messages st |})
    end.

(** The operations each page of the admin site offers: saving the change
    form of one object, running the [n]-th action declared in [admin.py] on
    the rows selected in the change list, running [delete_selected] on
    them, deleting one object, and adding one.  A request whose form or form
    sets fail validation changes nothing, which is the outcome of a change
    form that posts nothing.  The messages of the framework's own views are
    not recorded: [st_messages] holds what the actions of [admin.py]
    report. *)
Inductive AdminOp : Type :=
  | ChangeView (object_id : string) (request : HttpRequest)
  | ActionView (n : nat) (request : HttpRequest) (selected : list lookup)
  | DeleteSelected (request : HttpRequest) (selected : list lookup)
  | DeleteView (object_id : string)
  | AddView (object_id : string) (new_object : row)
      (inline_rows : list (list (string * row))).

Definition run_op (adm : ModelAdmin) (op : AdminOp) : Admin unit :=
  match op with
  | ChangeView object_id request => changeform_view adm request object_id
  | ActionView n request selected =>
      match adm_actions adm !! n with
      | Some action =>
          action request
            {| qs_model := adm_model adm; qs_lookups := selected |}
      | None => mret tt
      end
  | DeleteSelected request selected => delete_selected adm selected
  | DeleteView object_id => delete_view adm object_id
  | AddView object_id new_object inline_rows =>
      add_view adm object_id new_object inline_rows
  end.

(** ** 5. The declarations of [admin.py] *)

(** [obj.<related_name>]: the rows of [child] whose column [fk] points at
    [obj] (a reverse foreign-key manager). *)
Definition related (child : Model) (fk : string) (obj : string) : QuerySet :=
  filter_ (Exact [fk] (VStr obj)) (objects child).

(** The contribution an image row points at. *)
Definition contribution_of (r : row) : option string :=
  match r !! "contribution" with
  | Some (VStr c) => Some c
  | _ => None
  end.

(** [obj.a.b.c] for the instance of [m] with key [obj]: the attribute path
    is followed through the foreign keys; a missing instance or a dangling
    key gives no value. *)
Definition attr (db : database) (m : Model) (path : list string)
    (obj : string) : option value :=
  db m !! obj ≫= follow db m path.

(** [ContributionsInline.contribution_ts] *)
Definition contribution_ts (db : database) (obj : string) : option value :=
  attr db Contribution ["contributed_at"] obj.

(** [ContributionInlineMesh.contributor_email] *)
Definition contributor_email (db : database) (obj : string) : option value :=
  attr db Contribution ["contributor"; "email"] obj.

(** [ContributionInlineContributor.mesh_id] *)
Definition mesh_id (db : database) (obj : string) : option value :=
  attr db Contribution ["mesh"; "verbose_id"] obj.

Definition ContributionsInline : InlineModelAdmin :=
  {| inl_model := Contribution;
     inl_readonly_fields :=
       ["contribution_ts"; "contribution_link"; "processed"];
     inl_fields :=
       Some ["ID"; "contribution_ts"; "contribution_link"; "processed"];
     inl_extra := 0;
     inl_max_num := Some 0;
     inl_can_delete := true |}.

(** [class ContributionInlineMesh(ContributionsInline)] *)
Definition ContributionInlineMesh : InlineModelAdmin :=
  {| inl_model := inl_model ContributionsInline;
     inl_readonly_fields :=
       inl_readonly_fields ContributionsInline ++ ["contributor_email"];
     inl_fields :=
       (λ fields, fields ++ ["contributor_email"]) <$>
         inl_fields ContributionsInline;
     inl_extra := inl_extra ContributionsInline;
     inl_max_num := inl_max_num ContributionsInline;
     inl_can_delete := inl_can_delete ContributionsInline |}.

(** [class ContributionInlineContributor(ContributionsInline)] *)
Definition ContributionInlineContributor : InlineModelAdmin :=
  {| inl_model := inl_model ContributionsInline;
     inl_readonly_fields :=
       inl_readonly_fields ContributionsInline ++ ["mesh_id"];
     inl_fields :=
       (λ fields, fields ++ ["mesh_id"]) <$>
         inl_fields ContributionsInline;
     inl_extra := inl_extra ContributionsInline;
     inl_max_num := inl_max_num ContributionsInline;
     inl_can_delete := inl_can_delete ContributionsInline |}.

Definition RunInlineMesh : InlineModelAdmin :=
  {| inl_model := Run;
     inl_readonly_fields := ["ID"; "ark"; "status"; "started_at"; "ended_at"];
     inl_fields := Some ["ID"; "ark"; "status"; "started_at"; "ended_at"];
     inl_extra := 0;
     inl_max_num := Some 0;
     inl_can_delete := false |}.

Definition ImageInlineContribution : InlineModelAdmin :=
  {| inl_model := Image;
     inl_readonly_fields := ["get_image"; "image_link"];
     inl_fields := Some ["ID"; "get_image"; "image_link"];
     inl_extra := 0;
     inl_max_num := Some 0;
     inl_can_delete := true |}.

(** [model = Run.images.through]; the remaining options are the defaults of
    [InlineModelAdmin]. *)
Definition ImageInlineRun : InlineModelAdmin :=
  {| inl_model := Run_images;
     inl_readonly_fields := [];
     inl_fields := None;
     inl_extra := 0;
     inl_max_num := None;
     inl_can_delete := true |}.

(** [model = Run.contributors.through] *)
Definition ContributorInlineRun : InlineModelAdmin :=
  {| inl_model := Run_contributors;
     inl_readonly_fields := [];
     inl_fields := None;
     inl_extra := 0;
     inl_max_num := None;
     inl_can_delete := true |}.

Module MeshAdmin.

Definition mesh_id_verbose (db : database) (obj : string) : option value :=
  attr db Mesh ["verbose_id"] obj.

Definition contrib_count (db : database) (obj : string) : nat :=
  count db (related Contribution "mesh" obj).

Definition image_count (db : database) (obj : string) : nat :=
  count db (filter_ (Exact ["contribution"; "mesh"] (VStr obj))
              (objects Image)).

Definition mark_completed (request : HttpRequest) (queryset : QuerySet)
  : Admin unit :=
  updated ← update queryset "completed" (VBool true);
  message_user request
    (percent
       (ngettext "%d mesh was successfully marked as completed."
          "%d meshes were successfully marked as completed." updated)
       updated)
    SUCCESS.

Definition mark_incomplete (request : HttpRequest) (queryset : QuerySet)
  : Admin unit :=
  updated ← update queryset "completed" (VBool false);
  message_user request
    (percent
       (ngettext "%d mesh was successfully marked as incomplete."
          "%d meshes were successfully marked as incomplete." updated)
       updated)
    SUCCESS.

Definition mark_hidden (request : HttpRequest) (queryset : QuerySet)
  : Admin unit :=
  updated ← update queryset "hidden" (VBool true);
  message_user request
    (percent
       (ngettext "%d mesh was successfully marked as hidden."
          "%d meshes were successfully marked as hidden." updated)
       updated)
    SUCCESS.

Definition mark_not_hidden (request : HttpRequest) (queryset : QuerySet)
  : Admin unit :=
  updated ← update queryset "hidden" (VBool false);
  message_user request
    (percent
       (ngettext "%d mesh was successfully marked as not hidden."
          "%d meshes were successfully marked as not hidden." updated)
       updated)
    SUCCESS.

Definition actions :=
  [mark_completed; mark_incomplete; mark_hidden; mark_not_hidden].

Definition fieldsets : list (option string * list (list string)) :=
  [ (Some "Mesh Details",
     [ ["ID"; "verbose_id"];
       ["created_at"; "updated_at"; "reconstructed_at"];
       ["status"; "completed"; "hidden"];
       ["name"; "country"; "state"; "district"];
       ["description"];
       ["center_image"; "denoise"];
       ["rotaZ"; "rotaX"; "rotaY"; "minObsAng"; "orientMesh"];
       ["thumbnail"; "get_thumbnail"];
       ["preview"; "get_preview"] ]) ].

Definition readonly_fields : list string :=
  [ "ID"; "verbose_id"; "created_at"; "updated_at"; "reconstructed_at";
    "get_preview"; "get_thumbnail" ].

Definition list_filter : list string := ["status"; "completed"; "hidden"].

Definition list_display : list string :=
  [ "ID"; "mesh_id_verbose"; "name"; "reconstructed_at"; "status";
    "completed"; "hidden"; "contrib_count"; "image_count"; "get_thumbnail" ].

Definition list_per_page : nat := 25.

(** [inlines = [ContributionInlineMesh]  # , RunInlineMesh FIXME] *)
Definition inlines : list InlineModelAdmin := [ContributionInlineMesh].

Definition options : ModelAdmin :=
  {| adm_model := Mesh;
     adm_fieldsets := fieldsets;
     adm_readonly_fields := readonly_fields;
     adm_inlines := inlines;
     adm_actions := actions;
     adm_list_filter := list_filter;
     adm_list_display := list_display;
     adm_list_per_page := list_per_page |}.

End MeshAdmin.

Module ContributorAdmin.

Definition contrib_count (db : database) (obj : string) : nat :=
  count db (related Contribution "contributor" obj).

Definition image_count (db : database) (obj : string) : nat :=
  count db (filter_ (Exact ["contribution"; "contributor"] (VStr obj))
              (objects Image)).

Definition ban_contributors (request : HttpRequest) (queryset : QuerySet)
  : Admin unit :=
  updated ← update queryset "banned" (VBool true);
  message_user request
    (percent
       (ngettext "%d contributor was successfully banned."
          "%d contributors were successfully banned." updated)
       updated)
    SUCCESS.

Definition unban_contributors (request : HttpRequest) (queryset : QuerySet)
  : Admin unit :=
  updated ← update queryset "banned" (VBool false);
  message_user request
    (percent
       (ngettext "%d contributor was successfully unbanned."
          "%d contributors were successfully unbanned." updated)
       updated)
    SUCCESS.

Definition actions := [ban_contributors; unban_contributors].

Definition readonly_fields : list string :=
  ["ID"; "created_at"; "updated_at"].

Definition fieldsets : list (option string * list (list string)) :=
  [ (Some "Contributor Details",
     [ ["ID"];
       ["created_at"; "updated_at"];
       ["name"; "email"];
       ["banned"];
       ["ban_reason"] ]) ].

Definition inlines : list InlineModelAdmin := [ContributionInlineContributor].

Definition list_filter : list string := ["banned"].

Definition list_display : list string :=
  [ "ID"; "name"; "email"; "updated_at"; "contrib_count"; "image_count";
    "banned" ].

Definition list_per_page : nat := 50.

Definition options : ModelAdmin :=
  {| adm_model := Contributor;
     adm_fieldsets := fieldsets;
     adm_readonly_fields := readonly_fields;
     adm_inlines := inlines;
     adm_actions := actions;
     adm_list_filter := list_filter;
     adm_list_display := list_display;
     adm_list_per_page := list_per_page |}.

End ContributorAdmin.

Module ContributionAdmin.

Definition mesh_id_verbose (db : database) (obj : string) : option value :=
  attr db Contribution ["mesh"; "verbose_id"] obj.

Definition image_count (db : database) (obj : string) : nat :=
  count db (related Image "contribution" obj).

Definition images_good_count (db : database) (obj : string) : nat :=
  count db (filter_ (Exact ["label"] (VStr "good"))
              (related Image "contribution" obj)).

Definition readonly_fields : list string :=
  [ "ID"; "mesh"; "contributor"; "contributed_at"; "processed";
    "processed_at"; "image_count"; "images_good_count" ].

Definition fields : list string :=
  [ "ID"; "contributed_at"; "mesh"; "contributor"; "processed";
    "processed_at"; "image_count"; "images_good_count" ].

Definition list_filter : list string := ["processed"; "mesh"].

Definition list_display : list string :=
  [ "ID"; "contributed_at"; "mesh_id_verbose"; "contributor"; "image_count";
    "images_good_count"; "processed" ].

Definition list_per_page : nat := 50.

Definition inlines : list InlineModelAdmin := [ImageInlineContribution].

(** With [fields] instead of [fieldsets], the form has one untitled field
    set with one field per row. *)
Definition options : ModelAdmin :=
  {| adm_model := Contribution;
     adm_fieldsets := [(None, (λ f, [f]) <$> fields)];
     adm_readonly_fields := readonly_fields;
     adm_inlines := inlines;
     adm_actions := [];
     adm_list_filter := list_filter;
     adm_list_display := list_display;
     adm_list_per_page := list_per_page |}.

End ContributionAdmin.

Module ImageAdmin.

Definition get_mesh_id_verbose (db : database) (obj : string)
  : option value :=
  attr db Image ["contribution"; "mesh"; "verbose_id"] obj.

Definition mark_good (request : HttpRequest) (queryset : QuerySet)
  : Admin unit :=
  updated ← update queryset "label" (VStr "good");
  message_user request
    (percent
       (ngettext "%d image was successfully marked as Good."
          "%d images were successfully marked as Good." updated)
       updated)
    SUCCESS.

Definition mark_bad (request : HttpRequest) (queryset : QuerySet)
  : Admin unit :=
  updated ← update queryset "label" (VStr "bad");
  message_user request
    (percent
       (ngettext "%d image was successfully marked as Bad."
          "%d images were successfully marked as Bad." updated)
       updated)
    SUCCESS.

Definition mark_nsfw (request : HttpRequest) (queryset : QuerySet)
  : Admin unit :=
  updated ← update queryset "label" (VStr "nsfw");
  message_user request
    (percent
       (ngettext "%d image was successfully marked as NSFW."
          "%d images were successfully marked as NSFW." updated)
       updated)
    SUCCESS.

Definition actions := [mark_good; mark_bad; mark_nsfw].

Definition readonly_fields : list string :=
  [ "ID"; "contribution"; "created_at"; "image"; "note"; "get_thumbnail";
    "get_mesh_id_verbose"; "get_contributor_link" ].

Definition fieldsets : list (option string * list (list string)) :=
  [ (Some "Image Details",
     [ ["note"];
       ["ID"];
       ["get_mesh_id_verbose"];
       ["get_contributor_link"];
       ["contribution"];
       ["created_at"];
       ["image"; "get_thumbnail"];
       ["label"];
       ["remark"] ]) ].

Definition list_filter : list string := ["label"].

Definition list_display : list string :=
  ["ID"; "created_at"; "contribution"; "label"; "get_thumbnail"].

Definition list_per_page : nat := 100.

Definition options : ModelAdmin :=
  {| adm_model := Image;
     adm_fieldsets := fieldsets;
     adm_readonly_fields := readonly_fields;
     adm_inlines := [];
     adm_actions := actions;
     adm_list_filter := list_filter;
     adm_list_display := list_display;
     adm_list_per_page := list_per_page |}.

End ImageAdmin.

Module RunAdmin.

Definition mesh_id_verbose (db : database) (obj : string) : option value :=
  attr db Run ["mesh"; "verbose_id"] obj.

Definition readonly_fields : list string :=
  [ "ID"; "ark"; "mesh_id_verbose"; "started_at"; "ended_at"; "image_count";
    "status"; "directory" ].

Definition fieldsets : list (option string * list (list string)) :=
  [ (Some "Run Details",
     [ ["ID"];
       ["ark"];
       ["mesh_id_verbose"];
       ["status"];
       ["started_at"; "ended_at"];
       ["directory"];
       ["image_count"];
       ["rotaZ"; "rotaX"; "rotaY"] ]) ].

Definition list_filter : list string := ["status"].

Definition list_display : list string :=
  ["ID"; "mesh_id_verbose"; "image_count"; "status"; "started_at"; "ark"].

Definition list_per_page : nat := 50.

Definition inlines : list InlineModelAdmin :=
  [ImageInlineRun; ContributorInlineRun].

Definition options : ModelAdmin :=
  {| adm_model := Run;
     adm_fieldsets := fieldsets;
     adm_readonly_fields := readonly_fields;
     adm_inlines := inlines;
     adm_actions := [];
     adm_list_filter := list_filter;
     adm_list_display := list_display;
     adm_list_per_page := list_per_page |}.

End RunAdmin.

Module ARKAdmin.

Definition mesh_id_verbose (db : database) (obj : string) : option value :=
  attr db ARK ["run"; "mesh"; "verbose_id"] obj.

Definition get_run (db : database) (obj : string) : option value :=
  attr db ARK ["run"] obj.

Definition readonly_fields : list string :=
  [ "ark"; "get_run"; "mesh_id_verbose"; "image_count"; "naan"; "shoulder";
    "assigned_name"; "created_at"; "url"; "metadata" ].

Definition fieldsets : list (option string * list (list string)) :=
  [ (Some "ARK Details",
     [ ["ark"];
       ["url"];
       ["created_at"];
       ["get_run"];
       ["mesh_id_verbose"];
       ["image_count"];
       ["naan"; "shoulder"; "assigned_name"];
       ["metadata"];
       ["commitment"] ]) ].

Definition list_display : list string :=
  ["ark"; "mesh_id_verbose"; "get_run"; "created_at"; "image_count"].

Definition list_per_page : nat := 50.

Definition options : ModelAdmin :=
  {| adm_model := ARK;
     adm_fieldsets := fieldsets;
     adm_readonly_fields := readonly_fields;
     adm_inlines := [];
     adm_actions := [];
     adm_list_filter := [];
     adm_list_display := list_display;
     adm_list_per_page := list_per_page |}.

End ARKAdmin.

(** The six [@admin.register(...)] decorations. *)
Definition site : list ModelAdmin :=
  [ MeshAdmin.options; ContributorAdmin.options; ContributionAdmin.options;
    ImageAdmin.options; RunAdmin.options; ARKAdmin.options ].

(** The columns the bulk actions of [admin.py] write, with the model whose
    admin declares the action. *)
Definition action_columns : list (Model * string) :=
  [ (Mesh, "completed"); (Mesh, "hidden"); (Contributor, "banned");
    (Image, "label") ].

(** ** 6. The run state machine of the specification *)

Module RunStateMachine.

(** Modelled from the spec: the Run State Machine (section 4.2, with the
    guard of section 5) is not part of [admin.py]; the states, errors and
    the four operations below follow the specification's words. *)
Inductive RunStatus : Type := queued | running | succeeded | failed.

Inductive Error : Type :=
  | ConflictError
  | EmptyInputError
  | InvalidTransitionError
  | NotFound.

Inductive result (A : Type) : Type :=
  | Ok (a : A)
  | Err (e : Error).
Arguments Ok {A} a.
Arguments Err {A} e.

(** Modelled from the spec: a Run belongs to one Mesh, references a frozen
    sequence of images, and records its status, timing, artifact and
    failure reason. *)
Record RunRecord : Type := {
  run_mesh : string;
  run_images : list string;
  run_status : RunStatus;
  started_at : nat;
  ended_at : option nat;
  artifact : option string;
  reason : option string
}.

(** Modelled from the spec: the persisted Runs; a Run's identifier is its
    position in the store. *)
Abbreviation store := (list RunRecord).

Definition is_active (r : RunRecord) : bool :=
  match run_status r with
  | queued | running => true
  | succeeded | failed => false
  end.

Definition active_on (meshID : string) (r : RunRecord) : bool :=
  is_active r && bool_decide (run_mesh r = meshID).

(** Modelled from the spec: the active Runs of a mesh, those whose status
    is [queued] or [running]. *)
Definition active_runs (meshID : string) (s : store) : list RunRecord :=
  filter (λ r, active_on meshID r = true) s.

Definition set_status (st : RunStatus) (ended : option nat)
    (art rsn : option string) (r : RunRecord) : RunRecord :=
  {| run_mesh := run_mesh r;
     run_images := run_images r;
     run_status := st;
     started_at := started_at r;
     ended_at := ended;
     artifact := art;
     reason := rsn |}.

(** Modelled from the spec: [createRun(meshID)] is one atomic
    check-and-set.  It fails with [ConflictError] if an active Run exists
    for the mesh; otherwise it takes the Input Selector's output
    ([selected]), fails with [EmptyInputError] if that is empty, else
    persists a queued Run with the frozen set and [started_at = now]. *)
Definition createRun (meshID : string) (selected : list string) (now : nat)
    (s : store) : result nat * store :=
  match active_runs meshID s with
  | _ :: _ => (Err ConflictError, s)
  | [] =>
      match selected with
      | [] => (Err EmptyInputError, s)
      | _ :: _ =>
          (Ok (length s),
           s ++ [ {| run_mesh := meshID;
                     run_images := selected;
                     run_status := queued;
                     started_at := now;
                     ended_at := None;
                     artifact := None;
                     reason := None |} ])
      end
  end.

(** Modelled from the spec: allowed only from [queued]; a no-op if already
    [running]; [InvalidTransitionError] otherwise. *)
Definition transitionToRunning (runID : nat) (s : store)
  : result unit * store :=
  match s !! runID with
  | None => (Err NotFound, s)
  | Some r =>
      match run_status r with
      | queued =>
          (Ok tt, <[ runID := set_status running (ended_at r) (artifact r)
                                (reason r) r ]> s)
      | running => (Ok tt, s)
      | succeeded | failed => (Err InvalidTransitionError, s)
      end
  end.

(** Modelled from the spec: allowed only from [running]; sets [succeeded],
    [ended_at = now] and the artifact reference.  A Run that is already
    terminal is left as it is and the call succeeds (section 5). *)
Definition complete (runID : nat) (artifactRef : string) (now : nat)
    (s : store) : result unit * store :=
  match s !! runID with
  | None => (Err NotFound, s)
  | Some r =>
      match run_status r with
      | running =>
          (Ok tt, <[ runID := set_status succeeded (Some now)
                                (Some artifactRef) (reason r) r ]> s)
      | succeeded | failed => (Ok tt, s)
      | queued => (Err InvalidTransitionError, s)
      end
  end.

(** Modelled from the spec: allowed from [queued] or [running]; sets
    [failed], [ended_at = now] and the reason.  A Run that is already
    terminal is left as it is and the call succeeds (section 5). *)
Definition fail (runID : nat) (why : string) (now : nat) (s : store)
  : result unit * store :=
  match s !! runID with
  | None => (Err NotFound, s)
  | Some r =>
      match run_status r with
      | queued | running =>
          (Ok tt, <[ runID := set_status failed (Some now) (artifact r)
                                (Some why) r ]> s)
      | succeeded | failed => (Ok tt, s)
      end
  end.

(** Modelled from the spec: the calls that reach the state machine.  The
    per-mesh guard of section 5 makes each call atomic, so an execution is a
    sequence of calls. *)
Inductive call : Type :=
  | CreateRun (meshID : string) (selected : list string) (now : nat)
  | TransitionToRunning (runID : nat)
  | Complete (runID : nat) (artifactRef : string) (now : nat)
  | Fail (runID : nat) (why : string) (now : nat).

Definition step (c : call) (s : store) : store :=
  match c with
  | CreateRun meshID selected now => (createRun meshID selected now s).2
  | TransitionToRunning runID => (transitionToRunning runID s).2
  | Complete runID artifactRef now => (complete runID artifactRef now s).2
  | Fail runID why now => (fail runID why now s).2
  end.

(** Modelled from the spec: the states reachable from the empty store. *)
Inductive reachable : store → Prop :=
  | reachable_init : reachable []
  | reachable_step c s : reachable s → reachable (step c s).

(** Modelled from the spec: racing [createRun] calls on one mesh (the
    concurrency test of section 8), in the order in which the guard admits
    them; each call comes with the selection it saw and its clock reading.
    Returns the outcome of every call and the final store. *)
Fixpoint race (meshID : string) (calls : list (list string * nat))
    (s : store) : list (result nat) * store :=
  match calls with
  | [] => ([], s)
  | (selected, now) :: rest =>
      let '(out, s1) := createRun meshID selected now s in
      let '(outs, s2) := race meshID rest s1 in
      (out :: outs, s2)
  end.

(** Modelled from the spec: exactly one of the outcomes is a success and
    every other one is [ConflictError]. *)
Definition exactly_one_wins (outs : list (result nat)) : Prop :=
  ∃ i runID,
    outs !! i = Some (Ok runID) ∧
    ∀ j, j ≠ i → j < length outs → outs !! j = Some (Err ConflictError).

End RunStateMachine.

(** ** 7. What the specification says of the admin surface *)

(** An admin action, as stored in [actions]. *)
Abbreviation action := (HttpRequest → QuerySet → Admin unit).

(** The six flag actions with the column each is named after, the value it
    is to write and the two endings of its report. *)
Definition flag_actions : list (action * string * bool * string * string) :=
  [ (MeshAdmin.mark_completed, "completed", true,
     " mesh was successfully marked as completed.",
     " meshes were successfully marked as completed.");
    (MeshAdmin.mark_incomplete, "completed", false,
     " mesh was successfully marked as incomplete.",
     " meshes were successfully marked as incomplete.");
    (MeshAdmin.mark_hidden, "hidden", true,
     " mesh was successfully marked as hidden.",
     " meshes were successfully marked as hidden.");
    (MeshAdmin.mark_not_hidden, "hidden", false,
     " mesh was successfully marked as not hidden.",
     " meshes were successfully marked as not hidden.");
    (ContributorAdmin.ban_contributors, "banned", true,
     " contributor was successfully banned.",
     " contributors were successfully banned.");
    (ContributorAdmin.unban_contributors, "banned", false,
     " contributor was successfully unbanned.",
     " contributors were successfully unbanned.") ].

(** The three moderation actions with the label each is named after. *)
Definition label_actions : list (action * string) :=
  [ (ImageAdmin.mark_good, "good");
    (ImageAdmin.mark_bad, "bad");
    (ImageAdmin.mark_nsfw, "nsfw") ].

(** The labels of the moderation ledger. *)
Definition ledger_labels : list value := [VStr "good"; VStr "bad"; VStr "nsfw"].

(** Every bulk action declared in [admin.py] with its target column. *)
Definition bulk_actions : list (action * string) :=
  [ (MeshAdmin.mark_completed, "completed");
    (MeshAdmin.mark_incomplete, "completed");
    (MeshAdmin.mark_hidden, "hidden");
    (MeshAdmin.mark_not_hidden, "hidden");
    (ContributorAdmin.ban_contributors, "banned");
    (ContributorAdmin.unban_contributors, "banned");
    (ImageAdmin.mark_good, "label");
    (ImageAdmin.mark_bad, "label");
    (ImageAdmin.mark_nsfw, "label") ].

(** Modelled from the spec: an image is referenced by a completed Run when
    a row of [Run.images.through] links it to a Run whose status is
    [succeeded] (section 3 of the specification; [models.py], which fixes the
    stored status strings, is not among the sources). *)
Definition referenced_by_completed_run (db : database) (image : string)
  : bool :=
  let completed :=
    dom (filter (λ kr, kr.2 !! "status" = Some (VStr "succeeded")) (db Run)) in
  bool_decide
    (filter (λ kr, kr.2 !! "image" = Some (VStr image) ∧
                   refers_to "run" completed kr.2 = true)
       (db Run_images) ≠ ∅).

(** Whether deleting rows of [m0] can reach table [m] within [depth] steps
    along [referrers]. *)
Fixpoint touched (depth : nat) (m0 m : Model) : bool :=
  match depth with
  | O => false
  | S depth' =>
      bool_decide (m = m0) ||
      existsb (λ cf, touched depth' cf.1 m) (referrers m0)
  end.

(** The length of the longest chain of [referrers] that starts at a model. *)
Definition height (m : Model) : nat :=
  match m with
  | ARK | Run_images | Run_contributors => 0
  | Image | Run => 1
  | Contribution => 2
  | Mesh | Contributor => 3
  end.

Definition is_action (op : AdminOp) : bool :=
  match op with
  | ActionView _ _ _ | DeleteSelected _ _ => true
  | ChangeView _ _ | DeleteView _ | AddView _ _ _ => false
  end.

Definition is_change_form (op : AdminOp) : bool :=
  match op with
  | ChangeView _ _ => true
  | _ => false
  end.


(** Each bulk action of [admin.py] with the column and the value of its
    [queryset.update] call. *)
Definition action_writes : list (action * string * value) :=
  [ (MeshAdmin.mark_completed, "completed", VBool true);
    (MeshAdmin.mark_incomplete, "completed", VBool false);
    (MeshAdmin.mark_hidden, "hidden", VBool true);
    (MeshAdmin.mark_not_hidden, "hidden", VBool false);
    (ContributorAdmin.ban_contributors, "banned", VBool true);
    (ContributorAdmin.unban_contributors, "banned", VBool false);
    (ImageAdmin.mark_good, "label", VStr "good");
    (ImageAdmin.mark_bad, "label", VStr "bad");
    (ImageAdmin.mark_nsfw, "label", VStr "nsfw") ].

(** A query set whose lookups never read column [f], so that writing [f]
    cannot change which rows it selects. *)
Definition independent_of (f : string) (qs : QuerySet) : Prop :=
  Forall (λ lk, match lk with
                | Exact path _ => f ∉ path
                | PkIn _ => True
                end)
    (qs_lookups qs).

(** The three moderation actions with the two endings of their report. *)
Definition label_reports : list (action * string * string) :=
  [ (ImageAdmin.mark_good,
     " image was successfully marked as Good.",
     " images were successfully marked as Good.");
    (ImageAdmin.mark_bad,
     " image was successfully marked as Bad.",
     " images were successfully marked as Bad.");
    (ImageAdmin.mark_nsfw,
     " image was successfully marked as NSFW.",
     " images were successfully marked as NSFW.") ].

(** *** A small database for worked instances

    Two meshes; three contributions, two on mesh [m1]; five images, one of
    them ([i5]) with a dangling contribution; one succeeded Run on [m1]
    whose frozen set holds image [i2]; the ARK of that Run. *)
Definition example_image (contribution label : string) : row :=
  {[ "contribution" := VStr contribution; "label" := VStr label ]}.

Definition example_contribution (mesh contributor : string) : row :=
  {[ "mesh" := VStr mesh; "contributor" := VStr contributor;
     "processed" := VBool true ]}.

Definition example_mesh (thumbnail : string) : row :=
  {[ "completed" := VBool false; "hidden" := VBool false;
     "reconstructed_at" := VInt 1700000000;
     "thumbnail" := VStr thumbnail; "preview" := VStr "preview.png" ]}.

Definition example_run : row :=
  {[ "mesh" := VStr "m1"; "status" := VStr "succeeded" ]}.

Definition example_ark : row :=
  {[ "run" := VStr "r1"; "naan" := VStr "12345"; "shoulder" := VStr "a";
     "assigned_name" := VStr "0001"; "commitment" := VStr "c0ffee" ]}.

Definition example_db : database :=
  λ m,
    match m with
    | Mesh => {[ "m1" := example_mesh "a.png"; "m2" := example_mesh "b.png" ]}
    | Contributor =>
        {[ "u1" := {[ "banned" := VBool false ]};
           "u2" := {[ "banned" := VBool true ]} ]}
    | Contribution =>
        {[ "c1" := example_contribution "m1" "u1";
           "c2" := example_contribution "m1" "u2";
           "c3" := example_contribution "m2" "u1" ]}
    | Image =>
        {[ "i1" := example_image "c1" "good";
           "i2" := example_image "c1" "bad";
           "i3" := example_image "c2" "good";
           "i4" := example_image "c3" "good";
           "i5" := example_image "c9" "good" ]}
    | Run => {[ "r1" := example_run ]}
    | ARK => {[ "ark:/12345/a0001" := example_ark ]}
    | Run_images => {[ "t1" := {[ "run" := VStr "r1"; "image" := VStr "i2" ]} ]}
    | Run_contributors => ∅
    end.

Definition example_state : AdminState :=
  {| st_db := example_db; st_messages := [] |}.

Definition empty_request : HttpRequest := {| POST := ∅; FORMSETS := [] |}.

(** The worked database with a verbose identifier on mesh [m1] and an
    e-mail address on contributor [u1]. *)
Definition labelled_db : database :=
  db_set Mesh
    {[ "m1" := <[ "verbose_id" := VStr "IN-OD-stupa" ]> (example_mesh "a.png") ]}
    (db_set Contributor
       {[ "u1" := {[ "email" := VStr "u1@example.org";
                     "banned" := VBool false ]} ]}
       example_db).

(** The query set of the rows ticked in a change list. *)
Definition ticked (m : Model) (pks : gset string) : QuerySet :=
  filter_ (PkIn pks) (objects m).

(** *** Proof tactics

    Case analysis on membership in one of the finite tables above, on
    membership in [site], and refutation of membership in a list of
    constants. *)
Ltac by_table H :=
  repeat (apply elem_of_cons in H as [H | H]);
  [ injection H as -> .. | by apply elem_of_nil in H ];
  subst.

Ltac by_site H :=
  unfold site in H;
  repeat (apply elem_of_cons in H as [-> | H]);
  [ .. | by apply elem_of_nil in H ].

Ltac not_in_list :=
  let H := fresh in
  intros H;
  repeat (apply elem_of_cons in H as [H | H]; [ discriminate H |]);
  by apply elem_of_nil in H.

Ltac solve_independent :=
  unfold independent_of; cbn;
  repeat (constructor; [ first [ exact I | not_in_list ] |]); constructor.

(** ** 8. Query sets and [update] *)

Section queryset_facts.
Context (db : database) (qs : QuerySet).

Lemma evaluate_Some pk r :
  evaluate db qs !! pk = Some r ↔
  db (qs_model qs) !! pk = Some r ∧ selects db qs pk r = true.
Proof. unfold evaluate. by rewrite map_lookup_filter_Some. Qed.

Lemma evaluate_None pk :
  evaluate db qs !! pk = None ↔
  ∀ r, db (qs_model qs) !! pk = Some r → selects db qs pk r = false.
Proof.
  unfold evaluate. rewrite map_lookup_filter_None. split.
  - intros [Hn | Hn] r Hr; [congruence |].
    specialize (Hn r Hr). simpl in Hn. by destruct (selects db qs pk r).
  - intros H. destruct (db (qs_model qs) !! pk) as [r|] eqn:E; [right | by left].
    intros r' [= <-]. simpl. rewrite (H r eq_refl). discriminate.
Qed.

Lemma update_rows_lookup f v pk :
  (update_rows qs f v db).1 (qs_model qs) !! pk =
  (λ r, if selects db qs pk r then <[f:=v]> r else r) <$>
    db (qs_model qs) !! pk.
Proof.
  unfold update_rows, db_set. simpl. rewrite decide_True by done.
  rewrite map_lookup_imap. by destruct (db (qs_model qs) !! pk).
Qed.

Lemma update_rows_other_table f v m :
  m ≠ qs_model qs → (update_rows qs f v db).1 m = db m.
Proof.
  intros Hm. unfold update_rows, db_set. simpl. by rewrite decide_False.
Qed.

(** A selected row gets the value in the column. *)
Lemma update_rows_selected f v pk r :
  evaluate db qs !! pk = Some r →
  (update_rows qs f v db).1 (qs_model qs) !! pk = Some (<[f:=v]> r).
Proof.
  intros [Hr Hs]%evaluate_Some. rewrite update_rows_lookup, Hr. simpl.
  by rewrite Hs.
Qed.

(** A row that is not selected is left as it is. *)
Lemma update_rows_unselected f v pk :
  evaluate db qs !! pk = None →
  (update_rows qs f v db).1 (qs_model qs) !! pk = db (qs_model qs) !! pk.
Proof.
  intros Hn. rewrite update_rows_lookup.
  destruct (db (qs_model qs) !! pk) as [r|] eqn:E; [|done]. simpl.
  rewrite evaluate_None in Hn. by rewrite (Hn r E).
Qed.

End queryset_facts.

Lemma percent_ngettext singular plural n :
  percent (ngettext ("%d" +:+ singular) ("%d" +:+ plural) n) n =
  pretty n +:+ (if decide (n = 1) then singular else plural).
Proof. unfold ngettext. by case_decide. Qed.

(** ** 9. The bulk actions *)

(** C5: each of the six bulk flag actions writes its named value into its
    named column of every row of the query set (completed, hidden on meshes;
    banned on contributors), and reports the number of rows of the query
    set. *)
Theorem flag_actions_set_their_flag :
  ∀ (act : action) (f : string) (b : bool) (singular plural : string),
    (act, f, b, singular, plural) ∈ flag_actions →
    ∀ (request : HttpRequest) (queryset : QuerySet) (st : AdminState),
      (∀ pk r,
         evaluate (st_db st) queryset !! pk = Some r →
         ∃ r', st_db (act request queryset st).2 (qs_model queryset) !! pk
               = Some r' ∧
               r' !! f = Some (VBool b)) ∧
      st_messages (act request queryset st).2 =
        st_messages st ++
          [ {| msg_level := SUCCESS;
               msg_text :=
                 pretty (count (st_db st) queryset) +:+
                 (if decide (count (st_db st) queryset = 1)
                  then singular else plural) |} ].
Proof.
  intros act f b singular plural Hin request queryset st.
  by_table Hin.
  all: split;
    [ intros pk r Hsel; eexists; split;
      [ by apply update_rows_selected | by rewrite lookup_insert_eq ]
    | apply (f_equal (λ t, st_messages st ++
                             [ {| msg_level := SUCCESS; msg_text := t |} ])),
        percent_ngettext ].
Qed.

Lemma flag_actions_set_their_flag_witness :
  let queryset := filter_ (PkIn {[ "m1" ]}) (objects Mesh) in
  let st' :=
    (MeshAdmin.mark_completed empty_request queryset example_state).2 in
  (∃ r', st_db st' Mesh !! "m1" = Some r' ∧
         r' !! "completed" = Some (VBool true)) ∧
  st_messages st' =
    [ {| msg_level := SUCCESS;
         msg_text := "1 mesh was successfully marked as completed." |} ].
Proof.
  intros queryset st'.
  destruct (flag_actions_set_their_flag MeshAdmin.mark_completed
              "completed" true _ _ ltac:(repeat constructor)
              empty_request queryset example_state) as [Hrows Hmsg].
  split.
  - apply (Hrows "m1" (example_mesh "a.png")). vm_compute. reflexivity.
  - exact Hmsg.
Defined.

(** On the worked database: hiding both meshes reports two rows. *)
Example mark_hidden_on_example :
  let st' := (MeshAdmin.mark_hidden empty_request (objects Mesh)
                example_state).2 in
  st_messages st' =
    [ {| msg_level := SUCCESS;
         msg_text := "2 meshes were successfully marked as hidden." |} ] ∧
  (st_db st' Mesh !! "m2") ≫= (.!! "hidden") = Some (VBool true).
Proof. vm_compute. split; reflexivity. Qed.

(** C6: on every query set, [mark_good], [mark_bad] and [mark_nsfw] write
    the label "good", "bad" and "nsfw" into every row of the query set, and
    after any action of [ImageAdmin.actions] the label of a row is either
    the one it had or one of the three ledger labels. *)
Theorem moderation_actions_assign_ledger_labels :
  (∀ (act : action) (l : string),
     (act, l) ∈ label_actions →
     ∀ request queryset st pk r,
       evaluate (st_db st) queryset !! pk = Some r →
       ∃ r', st_db (act request queryset st).2 (qs_model queryset) !! pk
             = Some r' ∧
             r' !! "label" = Some (VStr l)) ∧
  (∀ (act : action),
     act ∈ ImageAdmin.actions →
     ∀ request queryset st m pk r',
       st_db (act request queryset st).2 m !! pk = Some r' →
       ∃ r, st_db st m !! pk = Some r ∧
            (r' !! "label" = r !! "label" ∨
             ∃ v, v ∈ ledger_labels ∧ r' !! "label" = Some v)).
Proof.
  split.
  - intros act l Hin request queryset st pk r Hsel. by_table Hin.
    all: eexists; split;
      [ by apply update_rows_selected | by rewrite lookup_insert_eq ].
  - intros act Hin request queryset st m pk r' Hafter.
    assert (∃ v, v ∈ ledger_labels ∧
                 st_db (act request queryset st).2
                 = (update_rows queryset "label" v (st_db st)).1)
      as (v & Hv & Hdb).
    { unfold ImageAdmin.actions in Hin.
      repeat (apply elem_of_cons in Hin as [-> | Hin]);
        [ exists (VStr "good") | exists (VStr "bad") | exists (VStr "nsfw")
        | by apply elem_of_nil in Hin ];
        (split; [ unfold ledger_labels; set_solver | done ]). }
    rewrite Hdb in Hafter.
    destruct (decide (m = qs_model queryset)) as [-> | Hm].
    + rewrite update_rows_lookup in Hafter.
      destruct (st_db st (qs_model queryset) !! pk) as [r|]; [|done].
      simpl in Hafter. exists r. split; [done|].
      destruct (selects (st_db st) queryset pk r); simplify_eq.
      * right. exists v. by rewrite lookup_insert_eq.
      * by left.
    + rewrite update_rows_other_table in Hafter by done.
      exists r'. by split; [|left].
Qed.

Lemma moderation_actions_assign_ledger_labels_witness :
  let queryset := filter_ (PkIn {[ "i2"; "i3" ]}) (objects Image) in
  ∃ r', st_db (ImageAdmin.mark_nsfw empty_request queryset example_state).2
          Image !! "i3" = Some r' ∧
        r' !! "label" = Some (VStr "nsfw").
Proof.
  intros queryset.
  apply (proj1 moderation_actions_assign_ledger_labels ImageAdmin.mark_nsfw
           "nsfw" ltac:(repeat constructor) empty_request queryset
           example_state "i3" (example_image "c2" "good")).
  vm_compute. reflexivity.
Defined.

(** C8: every declared bulk action is frame-preserving.  Tables other than
    the query set's are untouched, rows of its table outside the query set
    are untouched, and on a row of the query set every column other than the
    action's target column keeps its value. *)
Theorem bulk_actions_change_only_their_column :
  ∀ (act : action) (f : string),
    (act, f) ∈ bulk_actions →
    ∀ (request : HttpRequest) (queryset : QuerySet) (st : AdminState),
      (∀ m, m ≠ qs_model queryset →
            st_db (act request queryset st).2 m = st_db st m) ∧
      (∀ pk, evaluate (st_db st) queryset !! pk = None →
             st_db (act request queryset st).2 (qs_model queryset) !! pk
             = st_db st (qs_model queryset) !! pk) ∧
      (∀ pk r, evaluate (st_db st) queryset !! pk = Some r →
               ∃ r', st_db (act request queryset st).2 (qs_model queryset) !! pk
                     = Some r' ∧
                     ∀ g, g ≠ f → r' !! g = r !! g).
Proof.
  intros act f Hin request queryset st. by_table Hin.
  all: split; [| split ];
    [ intros m Hm; by apply update_rows_other_table
    | intros pk Hn; by apply update_rows_unselected
    | intros pk r Hsel; eexists; split;
      [ by apply update_rows_selected
      | intros g Hg; by rewrite lookup_insert_ne ] ].
Qed.

Lemma bulk_actions_change_only_their_column_witness :
  let queryset := filter_ (PkIn {[ "u1" ]}) (objects Contributor) in
  let db' :=
    st_db (ContributorAdmin.ban_contributors empty_request queryset
             example_state).2 in
  db' Image = example_db Image ∧
  db' Contributor !! "u2" = example_db Contributor !! "u2" ∧
  ∃ r', db' Contributor !! "u1" = Some r' ∧
        ∀ g, g ≠ "banned" → r' !! g = ({[ "banned" := VBool false ]} : row) !! g.
Proof.
  intros queryset db'.
  destruct (bulk_actions_change_only_their_column
              ContributorAdmin.ban_contributors "banned"
              ltac:(repeat constructor) empty_request queryset example_state)
    as (Htables & Hout & Hin).
  split; [| split ].
  - apply Htables. discriminate.
  - apply Hout. vm_compute. reflexivity.
  - apply Hin. vm_compute. reflexivity.
Defined.

(** ** 10. Displayed counts *)

Lemma contribution_of_Some r c :
  contribution_of r = Some c ↔ r !! "contribution" = Some (VStr c).
Proof.
  unfold contribution_of.
  destruct (r !! "contribution") as [[]|]; naive_solver.
Qed.

(** Counting rows whose key lies in a duplicate-free list is the sum of the
    counts per key. *)
Lemma size_filter_key_in (t : table) (key : row → option string)
    (g : string → nat) (l : list string) :
  NoDup l →
  (∀ c, g c = size (filter (λ kr, key kr.2 = Some c) t)) →
  size (filter (λ kr, key kr.2 ∈ Some <$> l) t) = sum_list_with g l.
Proof.
  intros Hl Hg. induction Hl as [| c l Hc Hl IH ]; simpl.
  - apply map_size_empty_iff, map_empty_filter.
    intros pk r _ Hin. simpl in Hin. by apply elem_of_nil in Hin.
  - rewrite <- IH, Hg.
    rewrite <- map_size_disj_union.
    + f_equal. rewrite <- map_filter_or. apply map_filter_ext.
      intros pk r _. simpl. rewrite elem_of_cons. naive_solver.
    + apply map_disjoint_spec. intros pk r1 r2.
      rewrite !map_lookup_filter_Some. simpl.
      intros [H1 Hk1] [H2 Hk2]. simplify_eq. rewrite Hk1 in Hk2.
      by apply list_elem_of_fmap_inj in Hk2; [| apply _ ].
Qed.

Lemma selects_related db child fk obj pk r :
  selects db (related child fk obj) pk r = true ↔ r !! fk = Some (VStr obj).
Proof.
  unfold selects. simpl. rewrite andb_true_r. apply bool_decide_eq_true.
Qed.

Lemma selects_through_contribution db fk obj pk r :
  selects db (filter_ (Exact ["contribution"; fk] (VStr obj)) (objects Image))
    pk r = true ↔
  ∃ c cr, r !! "contribution" = Some (VStr c) ∧
          db Contribution !! c = Some cr ∧
          cr !! fk = Some (VStr obj).
Proof.
  unfold selects. simpl. rewrite andb_true_r, bool_decide_eq_true.
  change (fk_target Image "contribution") with (Some Contribution).
  split.
  - destruct (r !! "contribution") as [[| | |c]|]; try done.
    destruct (db Contribution !! c) as [cr|] eqn:E; [|done].
    intros Hfk. by exists c, cr.
  - intros (c & cr & -> & -> & Hfk). done.
Qed.

(** The images reached through the contributions that point at [obj] by
    column [fk] are counted once per contribution. *)
Lemma image_count_through_contributions db fk obj :
  count db (filter_ (Exact ["contribution"; fk] (VStr obj)) (objects Image)) =
  sum_list_with (ContributionAdmin.image_count db)
    (all db (related Contribution fk obj)).
Proof.
  unfold count.
  rewrite <- (size_filter_key_in (db Image) contribution_of).
  - f_equal. apply map_filter_ext. intros pk r _. simpl.
    rewrite selects_through_contribution. unfold all.
    rewrite list_elem_of_fmap. split.
    + intros (c & cr & Hc & Hcr & Hfk). exists c. split.
      * by apply contribution_of_Some.
      * apply list_elem_of_fmap. exists (c, cr). split; [done|].
        apply elem_of_map_to_list, evaluate_Some. split; [done|].
        by apply selects_related.
    + intros (c & Hc & Hin). apply contribution_of_Some in Hc.
      apply list_elem_of_fmap in Hin as ([c' cr] & -> & Hin).
      apply elem_of_map_to_list, evaluate_Some in Hin as [Hcr Hsel].
      apply selects_related in Hsel. by exists c', cr.
  - apply NoDup_fst_map_to_list.
  - intros c. unfold ContributionAdmin.image_count, count. f_equal.
    apply map_filter_ext. intros pk r _. simpl.
    by rewrite selects_related, contribution_of_Some.
Qed.

(** C9: the image total shown for a mesh is the sum, over the mesh's
    contributions, of the number of images of each contribution, and the
    image total shown for a contributor is the same sum over the
    contributor's contributions. *)
Theorem image_count_decomposes_over_contributions :
  ∀ (db : database) (obj : string),
    MeshAdmin.image_count db obj =
      sum_list_with (ContributionAdmin.image_count db)
        (all db (related Contribution "mesh" obj)) ∧
    ContributorAdmin.image_count db obj =
      sum_list_with (ContributionAdmin.image_count db)
        (all db (related Contribution "contributor" obj)).
Proof.
  intros db obj. split; apply image_count_through_contributions.
Qed.

(** C10: the good-image count of a contribution is the number of image rows
    that belong to the contribution and carry the label "good"; no other row
    is counted. *)
Theorem images_good_count_counts_good_images :
  ∀ (db : database) (obj : string),
    ∃ counted : gset string,
      ContributionAdmin.images_good_count db obj = size counted ∧
      ∀ pk, pk ∈ counted ↔
            ∃ r, db Image !! pk = Some r ∧
                 r !! "contribution" = Some (VStr obj) ∧
                 r !! "label" = Some (VStr "good").
Proof.
  intros db obj.
  exists (dom (evaluate db (filter_ (Exact ["label"] (VStr "good"))
                              (related Image "contribution" obj)))).
  split.
  - unfold ContributionAdmin.images_good_count, count. by rewrite size_dom.
  - intros pk. rewrite elem_of_dom. unfold is_Some.
    apply exist_proper. intros r. rewrite evaluate_Some.
    unfold selects. simpl.
    rewrite andb_true_r, andb_true_iff, !bool_decide_eq_true. tauto.
Qed.

(** On the worked database: mesh [m1] shows three images, two from
    contribution [c1] and one from [c2]; the image with a dangling
    contribution is shown for no mesh; [c1] has one good image. *)
Example image_counts_on_example :
  MeshAdmin.image_count example_db "m1" = 3 ∧
  all example_db (related Contribution "mesh" "m1") = ["c1"; "c2"] ∧
  ContributionAdmin.image_count example_db "c1" = 2 ∧
  ContributionAdmin.image_count example_db "c2" = 1 ∧
  ContributorAdmin.image_count example_db "u1" = 3 ∧
  ContributionAdmin.images_good_count example_db "c1" = 1.
Proof. vm_compute. repeat split; reflexivity. Qed.

(** ** 11. Deletion and the change form *)

Lemma touched_false_ne depth m0 m :
  touched depth m0 m = false → depth = 0 ∨ m ≠ m0.
Proof.
  destruct depth as [|d]; [by left|]. simpl.
  intros [Hm _]%orb_false_iff. right. by apply bool_decide_eq_false in Hm.
Qed.

Lemma referrers_lower m cf : cf ∈ referrers m → height cf.1 < height m.
Proof.
  intros Hin. destruct m; vm_compute in Hin.
  all: repeat (apply elem_of_cons in Hin as [-> | Hin]);
    [ simpl; lia .. | by apply elem_of_nil in Hin ].
Qed.

(** The depth bound cuts no deletion short: any depth above the height of
    the model gives the same result, so [delete] is the full cascade. *)
Lemma delete_cascade_depth d1 d2 db m pks :
  height m < d1 → height m < d2 →
  delete_cascade d1 db m pks = delete_cascade d2 db m pks.
Proof.
  revert d2 db m pks.
  induction d1 as [| d1 IH ]; intros [| d2 ] db m pks H1 H2; try lia.
  simpl.
  generalize (db_set m (filter (λ kr, kr.1 ∉ pks) (db m)) db).
  pose proof (referrers_lower m) as Hlow.
  induction (referrers m) as [| cf l IHl ]; intros acc; [ done |].
  simpl. rewrite (IH d2).
  - apply IHl. intros cf' Hin. apply Hlow. by right.
  - specialize (Hlow cf ltac:(by left)). lia.
  - specialize (Hlow cf ltac:(by left)). lia.
Qed.

Lemma delete_depth_sufficient d db m pks :
  4 ≤ d → delete_cascade d db m pks = delete db m pks.
Proof.
  intros Hd. apply delete_cascade_depth; destruct m; simpl; lia.
Qed.

(** A deletion only removes rows: a row that is left is a row that was
    there, unchanged. *)
Lemma delete_cascade_sub depth db m0 pks m pk r :
  delete_cascade depth db m0 pks m !! pk = Some r → db m !! pk = Some r.
Proof.
  revert db m0 pks. induction depth as [| d IH ]; intros db m0 pks; [ done |].
  simpl.
  assert (db_set m0 (filter (λ kr, kr.1 ∉ pks) (db m0)) db m !! pk = Some r →
          db m !! pk = Some r) as Hfirst.
  { unfold db_set. case_decide as Hm; [ subst m | done ].
    by intros [? _]%map_lookup_filter_Some. }
  revert Hfirst.
  generalize (db_set m0 (filter (λ kr, kr.1 ∉ pks) (db m0)) db).
  induction (referrers m0) as [| cf l IHl ]; intros acc Hacc; [ done |].
  simpl. apply IHl. intros Hr. apply Hacc. by apply IH in Hr.
Qed.

(** Rows added by the add view leave the rows that exist as they are. *)
Lemma add_rows_old m db rows m' pk r :
  db m' !! pk = Some r → add_rows m db rows m' !! pk = Some r.
Proof.
  unfold add_rows. revert db.
  induction rows as [| [k x] rows IH ]; intros db Hr; [ done |].
  cbn [foldl]. apply IH. cbn [fst snd].
  destruct (db m !! k) eqn:Hk; [ done |].
  unfold db_set. case_decide as Hm; [ subst m' | done ].
  rewrite lookup_insert_ne; [ done | congruence ].
Qed.

Lemma add_view_old adm object_id new_object inline_rows st m pk r :
  st_db st m !! pk = Some r →
  st_db (add_view adm object_id new_object inline_rows st).2 m !! pk
  = Some r.
Proof.
  intros Hr. unfold add_view.
  destruct (st_db st (adm_model adm) !! object_id); [ done |]. cbn [snd st_db].
  assert (add_rows (adm_model adm) (st_db st) [(object_id, new_object)] m
            !! pk = Some r) as Hfirst by by apply add_rows_old.
  revert Hfirst.
  generalize (add_rows (adm_model adm) (st_db st) [(object_id, new_object)]).
  generalize (zip (adm_inlines adm) inline_rows).
  intros l. induction l as [| x l IH ]; intros db Hdb; [ done |].
  cbn [foldl]. by apply IH, add_rows_old.
Qed.

(** A deletion leaves every table it cannot reach as it was. *)
Lemma delete_cascade_untouched depth db m0 pks m :
  touched depth m0 m = false → delete_cascade depth db m0 pks m = db m.
Proof.
  revert db m0 pks. induction depth as [|d IHd]; intros db m0 pks; [done|].
  simpl. intros [Hm Hrefs]%orb_false_iff.
  apply bool_decide_eq_false in Hm.
  transitivity (db_set m0 (filter (λ kr, kr.1 ∉ pks) (db m0)) db m);
    [| unfold db_set; by rewrite decide_False ].
  generalize (db_set m0 (filter (λ kr, kr.1 ∉ pks) (db m0)) db).
  induction (referrers m0) as [| cf l IHl ]; intros acc; [done|].
  simpl in Hrefs. apply orb_false_iff in Hrefs as [Hcf Hl].
  simpl. rewrite IHl by done. by apply IHd.
Qed.

Lemma construct_instance_frame (editable : string → Prop)
    `{!∀ f, Decision (editable f)} (data : gmap string value) (r : row) f :
  ¬ editable f → construct_instance editable data r !! f = r !! f.
Proof.
  intros Hf. unfold construct_instance. apply lookup_union_r.
  apply map_lookup_filter_None. right. intros v _ Hed. by apply Hf.
Qed.

(** Saving an inline form neither adds nor removes a row of a table that
    deletion from the inline's model cannot reach, or of any table when the
    inline forbids deletion. *)
Lemma save_inline_form_keeps_rows inl db fm m :
  touched 8 (inl_model inl) m = false ∨ inl_can_delete inl = false →
  dom (save_inline_form inl db fm m) = dom (db m).
Proof.
  intros Hm. unfold save_inline_form.
  destruct (db (inl_model inl) !! form_pk fm) as [r|] eqn:Hr; [|done].
  destruct (inl_can_delete inl && form_DELETE fm) eqn:Hdel.
  - destruct Hm as [Hm | Hm]; [| by rewrite Hm in Hdel ].
    unfold delete. by rewrite delete_cascade_untouched.
  - unfold db_set. case_decide as Heq; [subst m | done].
    rewrite dom_insert_L. apply subseteq_union_1_L, singleton_subseteq_l.
    by apply elem_of_dom_2 in Hr.
Qed.

(** Saving an inline form leaves every table that deletion from the inline's
    model cannot reach as it was. *)
Lemma save_inline_form_untouched inl db fm m :
  touched 8 (inl_model inl) m = false → save_inline_form inl db fm m = db m.
Proof.
  intros Hm. unfold save_inline_form.
  destruct (db (inl_model inl) !! form_pk fm) as [r|] eqn:Hr; [|done].
  destruct (inl_can_delete inl && form_DELETE fm).
  - unfold delete. by rewrite delete_cascade_untouched.
  - apply touched_false_ne in Hm as [?|Hm]; [done|].
    unfold db_set. by rewrite decide_False.
Qed.

(** An invariant of single inline forms is an invariant of the form sets of
    a change view. *)
Lemma save_formsets_invariant (P : database → Prop)
    (inlines : list InlineModelAdmin) (formsets : list (list InlineForm))
    (db : database) :
  (∀ inl db0 fm, inl ∈ inlines → P db0 → P (save_inline_form inl db0 fm)) →
  P db → P (foldl save_formset db (zip inlines formsets)).
Proof.
  intros Hstep. revert formsets db.
  induction inlines as [| inl inlines IH ]; intros [| forms formsets ] db Hdb;
    try done.
  simpl. apply IH.
  - intros inl' db0 fm Hin. apply Hstep. by right.
  - unfold save_formset. simpl. clear IH. revert db Hdb.
    induction forms as [| fm forms IHf ]; intros db Hdb; [done|].
    simpl. apply IHf, Hstep; [by left | done].
Qed.

(** C7: Runs and ARKs cannot be deleted through a Mesh's edit page.  The Run
    inline forbids deletion, and saving the edit page of a mesh, with the
    inlines the source attaches and also with the Run inline attached,
    leaves the set of Run rows and the set of ARK rows as they were,
    whatever DELETE boxes the request ticks and however far deletions
    cascade. *)
Theorem mesh_edit_never_deletes_runs_or_arks :
  inl_can_delete RunInlineMesh = false ∧
  ∀ (adm : ModelAdmin),
    adm_model adm = Mesh →
    adm_inlines adm ⊆ [ContributionInlineMesh; RunInlineMesh] →
    ∀ (request : HttpRequest) (object_id : string) (st : AdminState),
      dom (st_db (changeform_view adm request object_id st).2 Run)
        = dom (st_db st Run) ∧
      dom (st_db (changeform_view adm request object_id st).2 ARK)
        = dom (st_db st ARK).
Proof.
  split; [done|].
  intros adm Hmodel Hinl request object_id st.
  unfold changeform_view. rewrite Hmodel.
  destruct (st_db st Mesh !! object_id) as [obj|]; [|done].
  destruct (forallb _ _); [|done]. simpl.
  apply (save_formsets_invariant
           (λ db, dom (db Run) = dom (st_db st Run) ∧
                  dom (db ARK) = dom (st_db st ARK))); [|done].
  intros inl db0 fm Hin [HRun HARK].
  apply Hinl in Hin.
  rewrite <- HRun, <- HARK.
  apply elem_of_cons in Hin as [-> | Hin];
    [| apply list_elem_of_singleton in Hin as -> ].
  - split; apply save_inline_form_keeps_rows; by left.
  - split; apply save_inline_form_keeps_rows; by right.
Qed.

Lemma mesh_edit_never_deletes_runs_or_arks_witness :
  let request :=
    {| POST := {[ "name" := VStr "Stupa" ]};
       FORMSETS := [ [ {| form_pk := "c1"; form_DELETE := true;
                          form_data := ∅ |} ] ] |} in
  let db' :=
    st_db (changeform_view MeshAdmin.options request "m1" example_state).2 in
  dom (db' Run) = dom (example_db Run) ∧ dom (db' ARK) = dom (example_db ARK).
Proof.
  intros request db'.
  apply (proj2 mesh_edit_never_deletes_runs_or_arks MeshAdmin.options).
  - reflexivity.
  - intros inl Hin. apply list_elem_of_singleton in Hin as ->. by left.
Defined.

(** On the worked database: ticking DELETE on contribution [c1] in the edit
    page of mesh [m1] removes the contribution, its two images and the
    many-to-many row of image [i2]; the Run and the ARK stay. *)
Example mesh_edit_deletes_contribution :
  let request :=
    {| POST := ∅;
       FORMSETS := [ [ {| form_pk := "c1"; form_DELETE := true;
                          form_data := ∅ |} ] ] |} in
  let db' :=
    st_db (changeform_view MeshAdmin.options request "m1" example_state).2 in
  elements (dom (db' Contribution)) = ["c3"; "c2"] ∧
  elements (dom (db' Image)) = ["i3"; "i5"; "i4"] ∧
  db' Run_images = ∅ ∧
  db' Run = example_db Run ∧
  db' ARK = example_db ARK.
Proof. vm_compute. repeat split; reflexivity. Qed.

(** The change view leaves a table that its inlines cannot reach as it was,
    but for the edited object, of which it writes only the form's fields. *)
Lemma changeform_view_frame adm request object_id st m pk r :
  Forall (λ inl, touched 8 (inl_model inl) m = false) (adm_inlines adm) →
  st_db st m !! pk = Some r →
  ∃ r', st_db (changeform_view adm request object_id st).2 m !! pk = Some r' ∧
        ∀ f, (m = adm_model adm → pk = object_id → f ∉ form_fields adm) →
             r' !! f = r !! f.
Proof.
  intros Hinl Hr. unfold changeform_view.
  destruct (st_db st (adm_model adm) !! object_id) as [obj|] eqn:Hobj;
    [| by exists r ].
  destruct (forallb _ _); [| by exists r ]. simpl.
  match goal with
  | |- context [ foldl save_formset ?d _ ] => set (db1 := d)
  end.
  assert (foldl save_formset db1
            (zip (adm_inlines adm) (FORMSETS request)) m = db1 m) as ->.
  { apply (save_formsets_invariant (λ db, db m = db1 m)); [|done].
    intros inl db0 fm Hin <-. apply save_inline_form_untouched.
    by eapply Forall_forall in Hinl. }
  unfold db1, db_set. case_decide as Hm; [subst m | by exists r ].
  destruct (decide (pk = object_id)) as [-> | Hpk].
  - rewrite lookup_insert_eq. eexists. split; [done|].
    intros f Hf. rewrite Hobj in Hr. injection Hr as ->.
    apply construct_instance_frame. auto.
  - rewrite lookup_insert_ne by done. by exists r.
Qed.

(** ** 12. Every operation of the admin site *)

(** An action run from a change list either does nothing or is one
    [update] of a column of [action_columns] on the admin's own model. *)
Lemma site_action_shape adm n request selected st :
  adm ∈ site →
  st_db (run_op adm (ActionView n request selected) st).2 = st_db st ∨
  ∃ f v,
    (adm_model adm, f) ∈ action_columns ∧
    st_db (run_op adm (ActionView n request selected) st).2 =
      (update_rows {| qs_model := adm_model adm; qs_lookups := selected |}
         f v (st_db st)).1.
Proof.
  intros Hin. by_site Hin.
  all: do 5 (try destruct n as [|n]); simpl; try (by left).
  all: right; do 2 eexists; (split; [| reflexivity ]);
    unfold action_columns; simpl; repeat constructor.
Qed.

(** Column [f] of a row of table [m] that an operation of the site leaves in
    place keeps its value when no inline can reach [m], no action writes
    [(m, f)], and the change form of [m]'s own admin does not offer [f]. *)
Lemma run_op_frame adm op st m pk r r' f :
  adm ∈ site →
  Forall (λ inl, touched 8 (inl_model inl) m = false) (adm_inlines adm) →
  (m, f) ∉ action_columns →
  (adm_model adm = m → is_change_form op = true → f ∉ form_fields adm) →
  st_db st m !! pk = Some r →
  st_db (run_op adm op st).2 m !! pk = Some r' →
  r' !! f = r !! f.
Proof.
  intros Hin Hinl Hcol Hform Hr Hr'.
  destruct op as [ object_id request | n request selected
                 | request selected | object_id
                 | object_id new_object inline_rows ].
  - destruct (changeform_view_frame adm request object_id st m pk r Hinl Hr)
      as (r'' & Hr'' & Hframe).
    cbn [run_op] in Hr'. rewrite Hr'' in Hr'. injection Hr' as <-.
    apply Hframe. intros -> _. by apply Hform.
  - destruct (site_action_shape adm n request selected st Hin)
      as [Hdb | (g & v & Hg & Hdb)]; rewrite Hdb in Hr'; [ congruence |].
    destruct (decide (m = adm_model adm)) as [-> | Hm].
    + pose proof (update_rows_lookup (st_db st)
                    {| qs_model := adm_model adm; qs_lookups := selected |}
                    g v pk) as Hlk.
      cbn [qs_model] in Hlk. rewrite Hlk, Hr in Hr'.
      apply fmap_Some in Hr' as (r0 & [= <-] & ->).
      destruct (selects (st_db st)
                  {| qs_model := adm_model adm; qs_lookups := selected |}
                  pk r); [| done ].
      apply lookup_insert_ne. by intros ->.
    + rewrite update_rows_other_table in Hr' by done. congruence.
  - cbn [run_op] in Hr'. unfold delete_selected, delete in Hr'.
    cbn [snd st_db] in Hr'. apply delete_cascade_sub in Hr'. congruence.
  - cbn [run_op] in Hr'. unfold delete_view, delete in Hr'.
    cbn [snd st_db] in Hr'. apply delete_cascade_sub in Hr'. congruence.
  - cbn [run_op] in Hr'.
    rewrite (add_view_old adm object_id new_object inline_rows st m pk r Hr)
      in Hr'.
    congruence.
Qed.

(** No inline of the site can reach the Mesh, Contributor, Run or ARK
    tables. *)
Lemma site_inlines_spare adm m :
  adm ∈ site → m ∈ [Mesh; Contributor; Run; ARK] →
  Forall (λ inl, touched 8 (inl_model inl) m = false) (adm_inlines adm).
Proof.
  intros Hin Hm. by_site Hin.
  all: repeat (apply elem_of_cons in Hm as [-> | Hm]);
    [ .. | by apply elem_of_nil in Hm ].
  all: repeat constructor.
Qed.

(** ** 13. Mesh fields written by the mint *)




(** ** 14. ARK and Run fields *)

(** No operation of the admin site changes the status of a Run that it
    leaves in place. *)
Lemma run_status_read_only adm op st pk r r' :
  adm ∈ site →
  st_db st Run !! pk = Some r →
  st_db (run_op adm op st).2 Run !! pk = Some r' →
  r' !! "status" = r !! "status".
Proof.
  intros Hin Hr Hr'.
  apply (run_op_frame adm op st Run pk r r' "status");
    [ done | | not_in_list | | done | done ].
  - apply site_inlines_spare; [done | repeat constructor ].
  - intros Hm _. by_site Hin; try discriminate Hm. vm_compute. not_in_list.
Qed.

(** No operation of the admin site changes a column that
    [ARKAdmin.readonly_fields] lists, of an ARK that it leaves in place. *)
Lemma ark_readonly_fields_frame adm op st pk r r' f :
  adm ∈ site →
  f ∈ ARKAdmin.readonly_fields →
  st_db st ARK !! pk = Some r →
  st_db (run_op adm op st).2 ARK !! pk = Some r' →
  r' !! f = r !! f.
Proof.
  intros Hin Hf Hr Hr'.
  apply (run_op_frame adm op st ARK pk r r' f);
    [ done | | | | done | done ].
  - apply site_inlines_spare; [done | repeat constructor ].
  - not_in_list.
  - intros Hm _. by_site Hin; try discriminate Hm.
    unfold form_fields. intros Hff%list_elem_of_filter. by destruct Hff.
Qed.

(** C2 (the code departs from the claim): the ARK change form lists
    [commitment] in its field set but not among the read-only fields, so
    saving the form with a posted [commitment] overwrites the commitment of
    an existing ARK, while [naan], [shoulder] and [assigned_name] posted in
    the same request are ignored. *)
Theorem ark_change_form_overwrites_commitment :
  let request :=
    {| POST := {[ "commitment" := VStr "0000"; "naan" := VStr "99999";
                  "shoulder" := VStr "z"; "assigned_name" := VStr "9999" ]};
       FORMSETS := [] |} in
  let op := ChangeView "ark:/12345/a0001" request in
  example_db ARK !! "ark:/12345/a0001" = Some example_ark ∧
  example_ark !! "commitment" = Some (VStr "c0ffee") ∧
  st_db (run_op ARKAdmin.options op example_state).2 ARK !! "ark:/12345/a0001"
    = Some (<[ "commitment" := VStr "0000" ]> example_ark) ∧
  form_fields ARKAdmin.options = ["commitment"].
Proof. vm_compute. repeat split; reflexivity. Qed.

(** ** 15. Labels of images in a completed Run *)

(** C3, as stated, fails: [mark_good] relabels an image that a succeeded
    Run references. *)
Lemma completed_run_image_relabelled :
  ¬ (∀ (act : action) request queryset st pk r r',
       act ∈ ImageAdmin.actions →
       st_db st Image !! pk = Some r →
       referenced_by_completed_run (st_db st) pk = true →
       st_db (act request queryset st).2 Image !! pk = Some r' →
       r' !! "label" = r !! "label").
Proof.
  intros Hclaim.
  specialize (Hclaim ImageAdmin.mark_good empty_request
                (filter_ (PkIn {[ "i2" ]}) (objects Image)) example_state
                "i2" (example_image "c1" "bad") (example_image "c1" "good")).
  assert (example_image "c1" "good" !! "label"
          = example_image "c1" "bad" !! "label") as Hsame.
  { apply Hclaim.
    - unfold ImageAdmin.actions. by left.
    - vm_compute. reflexivity.
    - vm_compute. reflexivity.
    - vm_compute. reflexivity. }
  vm_compute in Hsame. discriminate Hsame.
Qed.

(** C3, amended: an image referenced by a completed Run is treated like any
    other image.  Each bulk label action writes its label on such an image
    when the query set selects it and leaves the label as it was when it
    does not, and the image form offers [label] (with [remark]) as an
    editable field for every image alike. *)
Theorem label_of_referenced_image :
  (∀ (act : action) (l : string),
     (act, l) ∈ label_actions →
     ∀ request queryset st pk r,
       qs_model queryset = Image →
       st_db st Image !! pk = Some r →
       referenced_by_completed_run (st_db st) pk = true →
       ∃ r', st_db (act request queryset st).2 Image !! pk = Some r' ∧
             r' !! "label" =
               if selects (st_db st) queryset pk r
               then Some (VStr l) else r !! "label") ∧
  form_fields ImageAdmin.options = ["label"; "remark"].
Proof.
  split.
  - intros act l Hin request queryset st pk r Hmodel Hr _.
    assert (st_db (act request queryset st).2
            = (update_rows queryset "label" (VStr l) (st_db st)).1) as ->
      by (by_table Hin; reflexivity).
    rewrite <- Hmodel, update_rows_lookup, Hmodel, Hr. simpl.
    eexists. split; [ reflexivity |].
    destruct (selects _ _ _ _); [ by rewrite lookup_insert_eq | done ].
  - vm_compute. reflexivity.
Qed.

Lemma label_of_referenced_image_witness :
  let queryset := filter_ (PkIn {[ "i2" ]}) (objects Image) in
  ∃ r', st_db (ImageAdmin.mark_good empty_request queryset example_state).2
          Image !! "i2" = Some r' ∧
        r' !! "label" = Some (VStr "good").
Proof.
  intros queryset.
  apply (proj1 label_of_referenced_image ImageAdmin.mark_good "good"
           ltac:(repeat constructor) empty_request queryset example_state
           "i2" (example_image "c1" "bad")).
  - reflexivity.
  - vm_compute. reflexivity.
  - vm_compute. reflexivity.
Defined.

(** ** 16. The run state machine *)

Section run_state_machine_facts.
Import RunStateMachine.

Lemma active_runs_app meshID s r :
  active_runs meshID (s ++ [r]) =
  active_runs meshID s ++ (if active_on meshID r then [r] else []).
Proof.
  unfold active_runs. rewrite filter_app. f_equal.
  destruct (active_on meshID r) eqn:E.
  - by rewrite filter_cons_True.
  - rewrite filter_cons_False; [done | by rewrite E ].
Qed.

(** Replacing a Run by one that is active only if the old one was cannot
    add to the active Runs. *)
Lemma active_runs_insert meshID (s : store) runID r r' :
  s !! runID = Some r →
  (active_on meshID r' = true → active_on meshID r = true) →
  length (active_runs meshID (<[ runID := r' ]> s))
    ≤ length (active_runs meshID s).
Proof.
  unfold active_runs. revert runID.
  induction s as [| x s IH ]; intros [| i ] Hr Himp; simpl in *; try done.
  - injection Hr as ->.
    destruct (decide (active_on meshID r' = true)) as [Ha | Ha].
    + rewrite !filter_cons_True by auto. done.
    + rewrite (filter_cons_False _ r') by done.
      destruct (decide (active_on meshID r = true)).
      * rewrite filter_cons_True by done. simpl. lia.
      * by rewrite filter_cons_False.
  - specialize (IH i Hr Himp).
    destruct (decide (active_on meshID x = true)).
    + rewrite !filter_cons_True by done. simpl. lia.
    + by rewrite !filter_cons_False.
Qed.

Lemma createRun_conflict meshID selected now s :
  active_runs meshID s ≠ [] →
  createRun meshID selected now s = (Err ConflictError, s).
Proof. unfold createRun. by destruct (active_runs meshID s). Qed.

Lemma createRun_fresh meshID selected now s :
  active_runs meshID s = [] → selected ≠ [] →
  createRun meshID selected now s =
  (Ok (length s),
   s ++ [ {| run_mesh := meshID; run_images := selected;
             run_status := queued; started_at := now; ended_at := None;
             artifact := None; reason := None |} ]).
Proof. unfold createRun. intros -> Hsel. by destruct selected. Qed.

(** Each call keeps, for every mesh, at most one active Run. *)
Lemma step_keeps_exclusive c s :
  (∀ meshID, length (active_runs meshID s) ≤ 1) →
  ∀ meshID, length (active_runs meshID (step c s)) ≤ 1.
Proof.
  intros Hs meshID. specialize (Hs meshID).
  destruct c as [m selected now | runID | runID art now | runID why now ];
    simpl.
  - unfold createRun.
    destruct (active_runs m s) as [| a l ] eqn:Hact; [| done ].
    destruct selected as [| i sel ]; [ done |]. simpl.
    rewrite active_runs_app. unfold active_on. simpl.
    case_bool_decide as Hm; [| by rewrite app_nil_r ].
    subst m. rewrite Hact. simpl. lia.
  - unfold transitionToRunning.
    destruct (s !! runID) as [r|] eqn:Hr; [| done ].
    destruct (run_status r) eqn:Hst; simpl; try done.
    etrans; [| exact Hs ]. eapply active_runs_insert; [ done |].
    unfold active_on, is_active. simpl. by rewrite Hst.
  - unfold complete.
    destruct (s !! runID) as [r|] eqn:Hr; [| done ].
    destruct (run_status r) eqn:Hst; simpl; try done.
    etrans; [| exact Hs ]. eapply active_runs_insert; [ done |].
    unfold active_on, is_active. simpl. done.
  - unfold fail.
    destruct (s !! runID) as [r|] eqn:Hr; [| done ].
    destruct (run_status r) eqn:Hst; simpl; try done.
    all: etrans; [| exact Hs ]; (eapply active_runs_insert; [ done |]).
    all: unfold active_on, is_active; simpl; done.
Qed.

(** Once a Run is active on the mesh, every further racing call is turned
    away and the store stays as it is. *)
Lemma race_all_conflict meshID calls s :
  active_runs meshID s ≠ [] →
  race meshID calls s = (replicate (length calls) (Err ConflictError), s).
Proof.
  intros Hact. induction calls as [| [selected now] calls IH ]; [ done |].
  simpl. rewrite createRun_conflict by done. by rewrite IH.
Qed.

(** C1, as stated, fails: with two racing calls on a mesh, no call need
    succeed.  On a mesh without an active Run whose selection is empty both
    calls end in [EmptyInputError]; on a mesh that already has an active Run
    both end in [ConflictError], however many images were selected. *)
Lemma race_without_winner :
  ¬ (∀ s meshID calls,
       active_runs meshID s = [] → 2 ≤ length calls →
       exactly_one_wins (race meshID calls s).1) ∧
  ¬ (∀ s meshID calls,
       reachable s → Forall (λ c, c.1 ≠ []) calls → 2 ≤ length calls →
       exactly_one_wins (race meshID calls s).1).
Proof.
  split; intros Hclaim.
  - assert (exactly_one_wins (race "m1" [([], 10); ([], 11)] []).1)
      as (i & runID & Hwin & _).
    { apply Hclaim; [ reflexivity | simpl; lia ]. }
    by destruct i as [| [| i ] ].
  - assert (exactly_one_wins
              (race "m1" [(["i1"], 10); (["i1"], 11)]
                 (step (CreateRun "m1" ["i1"] 5) [])).1)
      as (i & runID & Hwin & _).
    { apply Hclaim; [ repeat constructor | | simpl; lia ].
      repeat constructor; discriminate. }
    by destruct i as [| [| i ] ].
Qed.

(** On a mesh without an active Run, racing calls that all saw an empty
    selection are all turned away with [EmptyInputError] and the store stays
    as it is. *)
Lemma race_all_empty meshID calls s :
  active_runs meshID s = [] →
  Forall (λ c, c.1 = []) calls →
  race meshID calls s = (replicate (length calls) (Err EmptyInputError), s).
Proof.
  intros Hact Hsel. induction Hsel as [| [selected now] calls Hc _ IH ];
    [ done |].
  cbn in Hc. subst selected. cbn [race]. unfold createRun. rewrite Hact.
  by rewrite IH.
Qed.

(** C1, amended: in every reachable state each mesh has at most one Run
    that is queued or running; and when [createRun] calls race on a mesh
    that has no active Run, each having seen a non-empty selection, exactly
    one (the first the guard admits) succeeds, every other one fails with
    [ConflictError], and the mesh ends with exactly one active Run.  When
    the mesh already has an active Run, every racing call fails with
    [ConflictError], whatever it selected; when it has none and every call
    saw an empty selection, every call fails with [EmptyInputError]; in both
    cases the store is left as it was. *)
Theorem at_most_one_active_run :
  (∀ s, reachable s → ∀ meshID, length (active_runs meshID s) ≤ 1) ∧
  (∀ s meshID calls,
     active_runs meshID s = [] →
     calls ≠ [] →
     Forall (λ c, c.1 ≠ []) calls →
     (race meshID calls s).1
       = Ok (length s) :: replicate (length calls - 1) (Err ConflictError) ∧
     exactly_one_wins (race meshID calls s).1 ∧
     length (active_runs meshID (race meshID calls s).2) = 1) ∧
  (∀ s meshID calls,
     active_runs meshID s ≠ [] →
     race meshID calls s
       = (replicate (length calls) (Err ConflictError), s)) ∧
  (∀ s meshID calls,
     active_runs meshID s = [] →
     Forall (λ c, c.1 = []) calls →
     race meshID calls s
       = (replicate (length calls) (Err EmptyInputError), s)).
Proof.
  split; [| split; [| split ] ].
  - intros s Hs. induction Hs as [| c s Hs IH ].
    + intros meshID. simpl. lia.
    + by apply step_keeps_exclusive.
  - intros s meshID [| [selected now] calls ] Hact Hne Hsel; [ done |].
    apply Forall_cons in Hsel as [Hsel _]. simpl in Hsel.
    simpl. rewrite createRun_fresh by done.
    rewrite race_all_conflict.
    + simpl. rewrite Nat.sub_0_r. split; [ done |]. split.
      * exists 0, (length s). split; [ done |].
        intros [| j ] Hj Hlt; [ done |]. simpl in *.
        rewrite length_replicate in Hlt.
        apply lookup_replicate_2. lia.
      * rewrite active_runs_app, Hact. unfold active_on. simpl.
        by rewrite bool_decide_eq_true_2.
    + rewrite active_runs_app, Hact. unfold active_on. simpl.
      by rewrite bool_decide_eq_true_2.
  - intros s meshID calls Hact. by apply race_all_conflict.
  - intros s meshID calls Hact Hsel. by apply race_all_empty.
Qed.

Lemma at_most_one_active_run_witness :
  length (active_runs "m1"
            (step (CreateRun "m1" ["i2"] 7)
               (step (CreateRun "m1" ["i1"] 5) []))) ≤ 1 ∧
  (race "m1" [(["i1"], 10); (["i1"; "i3"], 11); (["i1"], 12)] []).1
    = [Ok 0; Err ConflictError; Err ConflictError] ∧
  exactly_one_wins
    (race "m1" [(["i1"], 10); (["i1"; "i3"], 11); (["i1"], 12)] []).1 ∧
  length (active_runs "m1"
            (race "m1" [(["i1"], 10); (["i1"; "i3"], 11); (["i1"], 12)] []).2)
    = 1 ∧
  race "m1" [([], 10); (["i1"], 11)] (step (CreateRun "m1" ["i1"] 5) [])
    = ([Err ConflictError; Err ConflictError],
       step (CreateRun "m1" ["i1"] 5) []) ∧
  race "m1" [([], 10); ([], 11)] (step (CreateRun "m2" ["i4"] 5) [])
    = ([Err EmptyInputError; Err EmptyInputError],
       step (CreateRun "m2" ["i4"] 5) []).
Proof.
  destruct at_most_one_active_run as (Hinv & Hrace & Hbusy & Hempty).
  split; [| split; [| split; [| split; [| split ] ] ] ].
  - apply Hinv. repeat constructor.
  - apply (Hrace [] "m1"
             [(["i1"], 10); (["i1"; "i3"], 11); (["i1"], 12)]).
    + reflexivity.
    + discriminate.
    + repeat constructor; discriminate.
  - apply (Hrace [] "m1"
             [(["i1"], 10); (["i1"; "i3"], 11); (["i1"], 12)]).
    + reflexivity.
    + discriminate.
    + repeat constructor; discriminate.
  - apply (Hrace [] "m1"
             [(["i1"], 10); (["i1"; "i3"], 11); (["i1"], 12)]).
    + reflexivity.
    + discriminate.
    + repeat constructor; discriminate.
  - apply (Hbusy (step (CreateRun "m1" ["i1"] 5) []) "m1"
             [([], 10); (["i1"], 11)]).
    discriminate.
  - apply (Hempty (step (CreateRun "m2" ["i4"] 5) []) "m1"
             [([], 10); ([], 11)]).
    + reflexivity.
    + repeat constructor.
Defined.

End run_state_machine_facts.

(** ** 17. Selection and counts under [update] *)

Lemma action_writes_db (act : action) f v request queryset st :
  (act, f, v) ∈ action_writes →
  st_db (act request queryset st).2 = (update_rows queryset f v (st_db st)).1.
Proof. intros Hin. by_table Hin; reflexivity. Qed.

Lemma follow_step db m g g' rest r :
  follow db m (g :: g' :: rest) r =
  match r !! g, fk_target m g with
  | Some (VStr k), Some m' =>
      match db m' !! k with
      | Some r' => follow db m' (g' :: rest) r'
      | None => None
      end
  | _, _ => None
  end.
Proof. done. Qed.

Section update_facts.
Context (qs : QuerySet) (f : string) (v : value) (db : database).

(** A row after the update is the row before, possibly with [f] set. *)
Lemma update_rows_row m pk :
  (update_rows qs f v db).1 m !! pk = None ∧ db m !! pk = None ∨
  ∃ r r', (update_rows qs f v db).1 m !! pk = Some r' ∧
          db m !! pk = Some r ∧
          (r' = r ∨ r' = <[f:=v]> r).
Proof.
  destruct (decide (m = qs_model qs)) as [-> | Hm].
  - rewrite update_rows_lookup.
    destruct (db (qs_model qs) !! pk) as [r|]; [ right | by left ].
    simpl. exists r. eexists. split; [ done |]. split; [ done |].
    destruct (selects db qs pk r); auto.
  - rewrite update_rows_other_table by done.
    destruct (db m !! pk) as [r|]; [ right | by left ].
    exists r, r. auto.
Qed.

(** [update] neither adds nor removes a row of any table. *)
Lemma update_rows_dom m : dom ((update_rows qs f v db).1 m) = dom (db m).
Proof.
  apply set_eq. intros pk. rewrite !elem_of_dom.
  destruct (update_rows_row m pk) as [[-> ->] | (r & r' & -> & -> & _)];
    [ done |].
  split; eauto.
Qed.

(** A path that does not mention [f] reads the same value before and
    after the update. *)
Lemma follow_update m path r r' :
  f ∉ path → r' = r ∨ r' = <[f:=v]> r →
  follow (update_rows qs f v db).1 m path r' = follow db m path r.
Proof.
  revert m r r'. induction path as [| g rest IH ]; intros m r r' Hf Hr;
    [ done |].
  apply not_elem_of_cons in Hf as [Hg Hrest].
  assert (r' !! g = r !! g) as Hsame.
  { destruct Hr as [-> | ->]; [ done | by rewrite lookup_insert_ne ]. }
  destruct rest as [| g' rest ]; [ done |].
  rewrite !follow_step, Hsame.
  destruct (r !! g) as [[| | | k ]|]; try done.
  destruct (fk_target m g) as [m'|]; [| done ].
  destruct (update_rows_row m' k) as [[-> ->] | (r1 & r1' & -> & -> & Hr1)];
    [ done |].
  by apply IH.
Qed.

Lemma selects_update qs' pk r r' :
  independent_of f qs' → r' = r ∨ r' = <[f:=v]> r →
  selects (update_rows qs f v db).1 qs' pk r' = selects db qs' pk r.
Proof.
  unfold independent_of, selects. intros Hind Hr.
  induction Hind as [| lk lks Hlk _ IH ]; [ done |].
  cbn [forallb]. rewrite IH. f_equal.
  destruct lk as [path w | pks]; [| done ].
  unfold lookup_holds. by rewrite (follow_update _ path r r').
Qed.

(** A query set that does not read [f] selects the same keys before and
    after the update. *)
Lemma evaluate_update_dom qs' :
  independent_of f qs' →
  dom (evaluate (update_rows qs f v db).1 qs') = dom (evaluate db qs').
Proof.
  intros Hind. apply set_eq. intros pk. rewrite !elem_of_dom.
  unfold is_Some. setoid_rewrite evaluate_Some.
  destruct (update_rows_row (qs_model qs') pk)
    as [[-> ->] | (r & r' & -> & -> & Hr)];
    [ split; intros (x & Hx & _); discriminate Hx |].
  pose proof (selects_update qs' pk r r' Hind Hr) as Hsel.
  split; intros (x & [= <-] & Hx); eexists; (split; [ done |]); congruence.
Qed.

Lemma count_update qs' :
  independent_of f qs' →
  count (update_rows qs f v db).1 qs' = count db qs'.
Proof.
  intros Hind. unfold count. by rewrite <- !size_dom, evaluate_update_dom.
Qed.

End update_facts.

(** ** 18. Displayed counts: bounds and behaviour under actions *)

(** X1: the good-image count of a contribution never exceeds its image
    count. *)
Theorem good_count_le_image_count :
  ∀ (db : database) (obj : string),
    ContributionAdmin.images_good_count db obj
      ≤ ContributionAdmin.image_count db obj.
Proof.
  intros db obj.
  unfold ContributionAdmin.images_good_count, ContributionAdmin.image_count,
    count.
  apply map_subseteq_size. unfold evaluate. apply map_filter_subseteq_ext.
  intros pk r _. cbn. unfold selects. cbn.
  rewrite !andb_true_iff. tauto.
Qed.

(** X2: the image total of a mesh (of a contributor) is at least the image
    count of each of its contributions, and it is zero when the mesh (the
    contributor) has no contribution. *)
Theorem image_total_bounds :
  ∀ (db : database) (obj c : string),
    (c ∈ all db (related Contribution "mesh" obj) →
     ContributionAdmin.image_count db c ≤ MeshAdmin.image_count db obj) ∧
    (c ∈ all db (related Contribution "contributor" obj) →
     ContributionAdmin.image_count db c
       ≤ ContributorAdmin.image_count db obj) ∧
    (MeshAdmin.contrib_count db obj = 0 → MeshAdmin.image_count db obj = 0) ∧
    (ContributorAdmin.contrib_count db obj = 0 →
     ContributorAdmin.image_count db obj = 0).
Proof.
  intros db obj c.
  unfold MeshAdmin.image_count, ContributorAdmin.image_count.
  rewrite !image_count_through_contributions.
  split; [| split; [| split ] ].
  - apply sum_list_with_in.
  - apply sum_list_with_in.
  - unfold MeshAdmin.contrib_count, count, all.
    intros ->%map_size_empty_iff. by rewrite map_to_list_empty.
  - unfold ContributorAdmin.contrib_count, count, all.
    intros ->%map_size_empty_iff. by rewrite map_to_list_empty.
Qed.

Lemma image_total_bounds_witness :
  ContributionAdmin.image_count example_db "c1"
    ≤ MeshAdmin.image_count example_db "m1" ∧
  MeshAdmin.image_count example_db "m9" = 0.
Proof.
  split.
  - apply (image_total_bounds example_db "m1" "c1").
    vm_compute. repeat constructor.
  - apply (image_total_bounds example_db "m9" "c1"). reflexivity.
Defined.

(** X3: no bulk action changes a displayed contribution count or image
    count, of a mesh, a contributor or a contribution; the good-image count
    is unchanged by every action that does not write [label]. *)
Theorem display_counts_unchanged_by_actions :
  ∀ (act : action) (f : string) (v : value),
    (act, f, v) ∈ action_writes →
    ∀ request queryset st obj,
      let db := st_db st in
      let db' := st_db (act request queryset st).2 in
      MeshAdmin.contrib_count db' obj = MeshAdmin.contrib_count db obj ∧
      MeshAdmin.image_count db' obj = MeshAdmin.image_count db obj ∧
      ContributorAdmin.contrib_count db' obj
        = ContributorAdmin.contrib_count db obj ∧
      ContributorAdmin.image_count db' obj
        = ContributorAdmin.image_count db obj ∧
      ContributionAdmin.image_count db' obj
        = ContributionAdmin.image_count db obj ∧
      (f ≠ "label" →
       ContributionAdmin.images_good_count db' obj
         = ContributionAdmin.images_good_count db obj).
Proof.
  intros act f v Hin request queryset st obj db db'. subst db db'.
  rewrite (action_writes_db act f v request queryset st Hin).
  assert (f ∈ ["completed"; "hidden"; "banned"; "label"]) as Hf.
  { by_table Hin; repeat constructor. }
  clear Hin.
  repeat split; try intros Hlabel.
  all: apply count_update.
  all: repeat (apply elem_of_cons in Hf as [-> | Hf]);
    [ .. | by apply elem_of_nil in Hf ]; try done; solve_independent.
Qed.

Lemma display_counts_unchanged_by_actions_witness :
  let db' :=
    st_db (ImageAdmin.mark_bad empty_request (objects Image)
             example_state).2 in
  MeshAdmin.image_count db' "m1" = 3 ∧
  ContributionAdmin.image_count db' "c1" = 2.
Proof.
  intros db'.
  destruct (display_counts_unchanged_by_actions ImageAdmin.mark_bad "label"
              (VStr "bad") ltac:(repeat constructor) empty_request
              (objects Image) example_state "m1") as (_ & Hmesh & _).
  destruct (display_counts_unchanged_by_actions ImageAdmin.mark_bad "label"
              (VStr "bad") ltac:(repeat constructor) empty_request
              (objects Image) example_state "c1") as (_ & _ & _ & _ & Hc & _).
  split; [ exact Hmesh | exact Hc ].
Defined.

Lemma selects_good db obj pk r :
  selects db (filter_ (Exact ["label"] (VStr "good"))
                (related Image "contribution" obj)) pk r = true ↔
  r !! "contribution" = Some (VStr obj) ∧ r !! "label" = Some (VStr "good").
Proof.
  unfold selects. cbn.
  by rewrite andb_true_r, andb_true_iff, !bool_decide_eq_true.
Qed.

(** After [label] is set to [l] on a query set that selects every image of
    contribution [obj], the good images of [obj] are all its images when [l]
    is "good" and none otherwise. *)
Lemma good_rows_after_relabel db queryset obj l :
  qs_model queryset = Image →
  (∀ pk r, db Image !! pk = Some r →
           r !! "contribution" = Some (VStr obj) →
           selects db queryset pk r = true) →
  dom (evaluate (update_rows queryset "label" (VStr l) db).1
         (filter_ (Exact ["label"] (VStr "good"))
            (related Image "contribution" obj)))
  = if decide (l = "good")
    then dom (evaluate db (related Image "contribution" obj))
    else ∅.
Proof.
  intros Hmodel Hall. apply set_eq. intros pk.
  rewrite elem_of_dom. unfold is_Some. setoid_rewrite evaluate_Some.
  setoid_rewrite selects_good. cbn [qs_model filter_ related objects].
  pose proof (update_rows_lookup db queryset "label" (VStr l) pk) as Hlk.
  rewrite Hmodel in Hlk. setoid_rewrite Hlk. clear Hlk.
  assert (pk ∈ dom (evaluate db (related Image "contribution" obj)) ↔
          ∃ r, db Image !! pk = Some r ∧
               r !! "contribution" = Some (VStr obj)) as Hrel.
  { rewrite elem_of_dom. unfold is_Some. setoid_rewrite evaluate_Some.
    by setoid_rewrite selects_related. }
  destruct (db Image !! pk) as [r|] eqn:Hr; cbn.
  - assert ((∃ r', Some (if selects db queryset pk r
                         then <["label" := VStr l]> r else r) = Some r' ∧
                   r' !! "contribution" = Some (VStr obj) ∧
                   r' !! "label" = Some (VStr "good")) ↔
            r !! "contribution" = Some (VStr obj) ∧ l = "good")
      as Hrow.
    { split.
      - intros (r' & [= <-] & Hc & Hl).
        assert (r !! "contribution" = Some (VStr obj)) as Hc'.
        { destruct (selects db queryset pk r); [| done ].
          by rewrite lookup_insert_ne in Hc. }
        split; [ done |].
        rewrite (Hall pk r Hr Hc'), lookup_insert_eq in Hl. congruence.
      - intros [Hc ->]. rewrite (Hall pk r Hr Hc). eexists.
        split; [ done |]. by rewrite lookup_insert_ne, lookup_insert_eq. }
    rewrite Hrow. case_decide as Hl.
    + rewrite Hrel. split.
      * intros [Hc _]. eauto.
      * intros (r0 & [= <-] & Hc). auto.
    + split; [ intros [_ ?]; done | intros []%not_elem_of_empty ].
  - case_decide.
    + rewrite Hrel. split; intros (x & Hx & _); discriminate Hx.
    + split; [ intros (x & Hx & _); discriminate Hx
             | intros []%not_elem_of_empty ].
Qed.

(** X4: when a moderation action is run on a query set that selects every
    image of a contribution, [mark_good] makes the contribution's good-image
    count equal to its image count, and [mark_bad] and [mark_nsfw] make it
    zero. *)
Theorem relabel_all_images_of_contribution :
  ∀ request queryset st obj,
    qs_model queryset = Image →
    (∀ pk r, st_db st Image !! pk = Some r →
             r !! "contribution" = Some (VStr obj) →
             selects (st_db st) queryset pk r = true) →
    ContributionAdmin.images_good_count
      (st_db (ImageAdmin.mark_good request queryset st).2) obj
      = ContributionAdmin.image_count (st_db st) obj ∧
    ContributionAdmin.images_good_count
      (st_db (ImageAdmin.mark_bad request queryset st).2) obj = 0 ∧
    ContributionAdmin.images_good_count
      (st_db (ImageAdmin.mark_nsfw request queryset st).2) obj = 0.
Proof.
  intros request queryset st obj Hmodel Hall.
  unfold ContributionAdmin.images_good_count, ContributionAdmin.image_count,
    count.
  rewrite <- !size_dom.
  change (st_db (ImageAdmin.mark_good request queryset st).2)
    with (update_rows queryset "label" (VStr "good") (st_db st)).1.
  change (st_db (ImageAdmin.mark_bad request queryset st).2)
    with (update_rows queryset "label" (VStr "bad") (st_db st)).1.
  change (st_db (ImageAdmin.mark_nsfw request queryset st).2)
    with (update_rows queryset "label" (VStr "nsfw") (st_db st)).1.
  rewrite !good_rows_after_relabel by done.
  repeat split.
Qed.

Lemma relabel_all_images_of_contribution_witness :
  ContributionAdmin.images_good_count
    (st_db (ImageAdmin.mark_good empty_request
              (related Image "contribution" "c1") example_state).2) "c1"
    = 2 ∧
  ContributionAdmin.images_good_count
    (st_db (ImageAdmin.mark_bad empty_request
              (related Image "contribution" "c1") example_state).2) "c1"
    = 0.
Proof.
  destruct (relabel_all_images_of_contribution empty_request
              (related Image "contribution" "c1") example_state "c1")
    as (Hgood & Hbad & _).
  - reflexivity.
  - intros pk r _ Hc. by apply selects_related.
  - split; [ exact Hgood | exact Hbad ].
Defined.

(** ** 19. How the bulk actions compose *)

(** X5: a bulk action neither adds nor removes a row of any table, and on a
    query set that does not read the written column it selects the same
    number of rows afterwards, so that running it again reports the same
    number. *)
Theorem actions_keep_rows :
  ∀ (act : action) (f : string) (v : value),
    (act, f, v) ∈ action_writes →
    ∀ request queryset st,
      (∀ m, dom (st_db (act request queryset st).2 m) = dom (st_db st m)) ∧
      (independent_of f queryset →
       count (st_db (act request queryset st).2) queryset
         = count (st_db st) queryset).
Proof.
  intros act f v Hin request queryset st.
  rewrite (action_writes_db act f v request queryset st Hin).
  split.
  - intros m. apply update_rows_dom.
  - apply count_update.
Qed.

Lemma actions_keep_rows_witness :
  let st' :=
    (ContributorAdmin.unban_contributors empty_request
       (ticked Contributor {[ "u2"; "u7" ]}) example_state).2 in
  dom (st_db st' Contributor) = dom (example_db Contributor) ∧
  count (st_db st') (ticked Contributor {[ "u2"; "u7" ]}) = 1.
Proof.
  intros st'.
  destruct (actions_keep_rows ContributorAdmin.unban_contributors "banned"
              (VBool false) ltac:(repeat constructor) empty_request
              (ticked Contributor {[ "u2"; "u7" ]}) example_state)
    as [Hdom Hcount].
  split; [ apply Hdom | apply Hcount; solve_independent ].
Defined.

(** X6: each moderation action appends exactly one message, at level
    SUCCESS, that starts with the number of rows of the query set and uses
    the singular wording exactly when that number is one. *)
Theorem label_actions_report_row_count :
  ∀ (act : action) (singular plural : string),
    (act, singular, plural) ∈ label_reports →
    ∀ request queryset st,
      st_messages (act request queryset st).2 =
        st_messages st ++
          [ {| msg_level := SUCCESS;
               msg_text :=
                 pretty (count (st_db st) queryset) +:+
                 (if decide (count (st_db st) queryset = 1)
                  then singular else plural) |} ].
Proof.
  intros act singular plural Hin request queryset st. by_table Hin.
  all: apply (f_equal (λ t, st_messages st ++
                              [ {| msg_level := SUCCESS; msg_text := t |} ])),
         percent_ngettext.
Qed.

Lemma label_actions_report_row_count_witness :
  st_messages (ImageAdmin.mark_nsfw empty_request
                 (ticked Image {[ "i1"; "i3"; "i9" ]}) example_state).2
  = [ {| msg_level := SUCCESS;
         msg_text := "2 images were successfully marked as NSFW." |} ].
Proof.
  exact (label_actions_report_row_count ImageAdmin.mark_nsfw _ _
           ltac:(repeat constructor) empty_request
           (ticked Image {[ "i1"; "i3"; "i9" ]}) example_state).
Defined.

Lemma update_rows_lookup_any qs f v db m pk :
  (update_rows qs f v db).1 m !! pk =
  (λ r, if decide (m = qs_model qs)
        then (if selects db qs pk r then <[f:=v]> r else r)
        else r) <$> db m !! pk.
Proof.
  case_decide as Hm.
  - subst m. apply update_rows_lookup.
  - rewrite update_rows_other_table by done.
    by destruct (db m !! pk).
Qed.

(** X7: of two bulk actions that write the same column, run one after the
    other on a query set that does not read that column, the second wins:
    the database is the one the second action alone would give (so running
    an action twice is the same as running it once, and unbanning undoes a
    ban on the selected rows). *)
Theorem last_action_on_a_column_wins :
  ∀ (act1 act2 : action) (f : string) (v1 v2 : value),
    (act1, f, v1) ∈ action_writes →
    (act2, f, v2) ∈ action_writes →
    ∀ request queryset st,
      independent_of f queryset →
      ∀ m, st_db (act2 request queryset (act1 request queryset st).2).2 m
           = st_db (act2 request queryset st).2 m.
Proof.
  intros act1 act2 f v1 v2 H1 H2 request queryset st Hind m.
  rewrite (action_writes_db act2 f v2 request queryset
             (act1 request queryset st).2 H2).
  rewrite (action_writes_db act2 f v2 request queryset st H2).
  rewrite (action_writes_db act1 f v1 request queryset st H1).
  apply map_eq. intros pk. rewrite !update_rows_lookup_any.
  destruct (st_db st m !! pk) as [r|]; [| done ]. cbn. f_equal.
  case_decide; [| done ].
  rewrite (selects_update queryset f v1 (st_db st) queryset pk r);
    [| done | destruct (selects (st_db st) queryset pk r); auto ].
  destruct (selects (st_db st) queryset pk r); [| done ].
  apply insert_insert_eq.
Qed.

Lemma last_action_on_a_column_wins_witness :
  let queryset := ticked Contributor {[ "u1" ]} in
  st_db (ContributorAdmin.unban_contributors empty_request queryset
           (ContributorAdmin.ban_contributors empty_request queryset
              example_state).2).2 Contributor
  = example_db Contributor.
Proof.
  intros queryset.
  rewrite (last_action_on_a_column_wins ContributorAdmin.ban_contributors
             ContributorAdmin.unban_contributors "banned" (VBool true)
             (VBool false) ltac:(repeat constructor)
             ltac:(repeat constructor) empty_request queryset example_state)
    by solve_independent.
  vm_compute. reflexivity.
Defined.

(** X8: two bulk actions that write different columns commute on the
    database, whatever rows each is run on, as long as neither query set
    reads the column the other action writes. *)
Theorem actions_on_different_columns_commute :
  ∀ (act1 act2 : action) (f1 f2 : string) (v1 v2 : value),
    (act1, f1, v1) ∈ action_writes →
    (act2, f2, v2) ∈ action_writes →
    f1 ≠ f2 →
    ∀ request1 request2 queryset1 queryset2 st,
      independent_of f2 queryset1 →
      independent_of f1 queryset2 →
      ∀ m, st_db (act2 request2 queryset2
                    (act1 request1 queryset1 st).2).2 m
           = st_db (act1 request1 queryset1
                      (act2 request2 queryset2 st).2).2 m.
Proof.
  intros act1 act2 f1 f2 v1 v2 H1 H2 Hf request1 request2 queryset1 queryset2
    st Hind1 Hind2 m.
  rewrite (action_writes_db act2 f2 v2 request2 queryset2
             (act1 request1 queryset1 st).2 H2).
  rewrite (action_writes_db act1 f1 v1 request1 queryset1
             (act2 request2 queryset2 st).2 H1).
  rewrite (action_writes_db act2 f2 v2 request2 queryset2 st H2).
  rewrite (action_writes_db act1 f1 v1 request1 queryset1 st H1).
  apply map_eq. intros pk. rewrite !update_rows_lookup_any.
  destruct (st_db st m !! pk) as [r|]; [| done ]. cbn. f_equal.
  set (s1 := selects (st_db st) queryset1 pk r).
  set (s2 := selects (st_db st) queryset2 pk r).
  assert (∀ r', r' = r ∨ r' = <[f1:=v1]> r →
                selects (update_rows queryset1 f1 v1 (st_db st)).1
                  queryset2 pk r' = s2) as Hs2.
  { intros r' Hr'. by apply selects_update. }
  assert (∀ r', r' = r ∨ r' = <[f2:=v2]> r →
                selects (update_rows queryset2 f2 v2 (st_db st)).1
                  queryset1 pk r' = s1) as Hs1.
  { intros r' Hr'. by apply selects_update. }
  destruct (decide (m = qs_model queryset1)),
           (decide (m = qs_model queryset2)); try done.
  - destruct s1 eqn:E1, s2 eqn:E2;
      rewrite ?Hs1, ?Hs2 by auto; try done.
    by apply insert_insert_ne.
  - destruct s1; by rewrite ?Hs1 by auto.
  - destruct s2; by rewrite ?Hs2 by auto.
Qed.

Lemma actions_on_different_columns_commute_witness :
  let q1 := ticked Mesh {[ "m1" ]} in
  let q2 := objects Mesh in
  st_db (MeshAdmin.mark_hidden empty_request q2
           (MeshAdmin.mark_completed empty_request q1 example_state).2).2 Mesh
  = st_db (MeshAdmin.mark_completed empty_request q1
             (MeshAdmin.mark_hidden empty_request q2 example_state).2).2 Mesh.
Proof.
  intros q1 q2.
  apply (actions_on_different_columns_commute MeshAdmin.mark_completed
           MeshAdmin.mark_hidden "completed" "hidden" (VBool true)
           (VBool true) ltac:(repeat constructor) ltac:(repeat constructor)).
  - discriminate.
  - solve_independent.
  - solve_independent.
Defined.

(** X9: when a bulk action is run on the change list filtered on the very
    column it writes, for a value other than the one it writes, the filter
    selects no row afterwards: after [mark_good] on the images labelled
    "bad" no image is labelled "bad", and a second run reports zero rows. *)
Theorem action_empties_its_own_filter :
  ∀ (act : action) (f : string) (v : value),
    (act, f, v) ∈ action_writes →
    ∀ (v0 : value) (m : Model) request st,
      v0 ≠ v →
      count (st_db (act request (filter_ (Exact [f] v0) (objects m)) st).2)
        (filter_ (Exact [f] v0) (objects m)) = 0.
Proof.
  intros act f v Hin v0 m request st Hv.
  rewrite (action_writes_db act f v request _ st Hin).
  set (qs := filter_ (Exact [f] v0) (objects m)).
  apply map_size_empty_iff, map_empty. intros pk. apply evaluate_None.
  intros r'. change (qs_model qs) with m.
  assert (∀ db r, selects db qs pk r = bool_decide (r !! f = Some v0))
    as Hsel.
  { intros db r. unfold selects. cbn. apply andb_true_r. }
  pose proof (update_rows_lookup (st_db st) qs f v pk) as Hlk.
  change (qs_model qs) with m in Hlk. rewrite Hlk.
  intros (r & Hr & ->)%fmap_Some. rewrite !Hsel.
  destruct (bool_decide (r !! f = Some v0)) eqn:Hf; [| done ].
  apply bool_decide_eq_false. rewrite lookup_insert_eq. congruence.
Qed.

Lemma action_empties_its_own_filter_witness :
  count
    (st_db (ImageAdmin.mark_good empty_request
              (filter_ (Exact ["label"] (VStr "bad")) (objects Image))
              example_state).2)
    (filter_ (Exact ["label"] (VStr "bad")) (objects Image)) = 0.
Proof.
  apply (action_empties_its_own_filter ImageAdmin.mark_good "label"
           (VStr "good") ltac:(repeat constructor)).
  discriminate.
Defined.

(** ** 20. What saving a change form can reach *)




(** On the worked database the request of the witness above does delete
    contribution [c1] and its two images through the Contributor page. *)
Example contributor_page_deletes_contribution :
  let request :=
    {| POST := ∅;
       FORMSETS := [ [ {| form_pk := "c1"; form_DELETE := true;
                          form_data := ∅ |} ] ] |} in
  let db' :=
    st_db (changeform_view ContributorAdmin.options request "u1"
             example_state).2 in
  elements (dom (db' Contribution)) = ["c3"; "c2"] ∧
  elements (dom (db' Image)) = ["i3"; "i5"; "i4"].
Proof. vm_compute. split; reflexivity. Qed.

(** X12: the change form of a Contribution is read-only for everything but
    images.  Whatever is posted to it, saving it leaves every table other
    than the Image table and the Run-images table exactly as it was; in
    particular the contribution's [mesh], [contributor] and [processed]
    cannot be changed there. *)
Theorem contribution_form_changes_only_images :
  ∀ (request : HttpRequest) (object_id : string) (st : AdminState)
    (m : Model),
    m ≠ Image → m ≠ Run_images →
    st_db (changeform_view ContributionAdmin.options request object_id st).2 m
    = st_db st m.
Proof.
  intros request object_id st m HImage HThrough.
  unfold changeform_view.
  change (adm_model ContributionAdmin.options) with Contribution.
  destruct (st_db st Contribution !! object_id) as [obj|] eqn:Hobj; [| done ].
  destruct (forallb _ _); [| done ]. cbn [snd st_db].
  match goal with
  | |- foldl save_formset ?d _ _ = _ => set (db1 := d)
  end.
  transitivity (db1 m).
  - apply (save_formsets_invariant (λ db, db m = db1 m)); [| done ].
    intros inl db0 fm Hinl <-. apply save_inline_form_untouched.
    apply list_elem_of_singleton in Hinl as ->.
    by destruct m.
  - unfold db1, db_set. case_decide as Hm; [ subst m | done ].
    apply insert_id. rewrite Hobj. f_equal.
    unfold construct_instance.
    rewrite (map_empty_filter_2 _ (POST request));
      [ symmetry; apply (left_id_L ∅ (∪)) |].
    intros f w _ Hf. cbn in Hf. vm_compute in Hf. by apply elem_of_nil in Hf.
Qed.

Lemma contribution_form_changes_only_images_witness :
  let request :=
    {| POST := {[ "processed" := VBool false; "mesh" := VStr "m2" ]};
       FORMSETS := [ [ {| form_pk := "i1"; form_DELETE := true;
                          form_data := ∅ |} ] ] |} in
  st_db (changeform_view ContributionAdmin.options request "c1"
           example_state).2 Contribution
  = example_db Contribution.
Proof.
  intros request.
  apply (contribution_form_changes_only_images request "c1" example_state
           Contribution); discriminate.
Defined.

(** ** 21. Displayed attributes *)

Lemma attr_update qs f v db m path obj :
  f ∉ path →
  attr (update_rows qs f v db).1 m path obj = attr db m path obj.
Proof.
  intros Hf. unfold attr.
  destruct (update_rows_row qs f v db m obj)
    as [[-> ->] | (r & r' & -> & -> & Hr)]; [ done |].
  cbn. by apply follow_update.
Qed.

(** X13: no bulk action changes what the display methods show: the verbose
    mesh identifier on the Mesh, Contribution, Image, Run and ARK pages, the
    Run of an ARK, and the timestamp, mesh identifier and contributor e-mail
    of the contribution inlines. *)
Theorem displayed_attributes_unchanged_by_actions :
  ∀ (act : action) (f : string) (v : value),
    (act, f, v) ∈ action_writes →
    ∀ request queryset st obj,
      let db := st_db st in
      let db' := st_db (act request queryset st).2 in
      MeshAdmin.mesh_id_verbose db' obj = MeshAdmin.mesh_id_verbose db obj ∧
      ContributionAdmin.mesh_id_verbose db' obj
        = ContributionAdmin.mesh_id_verbose db obj ∧
      ImageAdmin.get_mesh_id_verbose db' obj
        = ImageAdmin.get_mesh_id_verbose db obj ∧
      RunAdmin.mesh_id_verbose db' obj = RunAdmin.mesh_id_verbose db obj ∧
      ARKAdmin.mesh_id_verbose db' obj = ARKAdmin.mesh_id_verbose db obj ∧
      ARKAdmin.get_run db' obj = ARKAdmin.get_run db obj ∧
      contribution_ts db' obj = contribution_ts db obj ∧
      contributor_email db' obj = contributor_email db obj ∧
      mesh_id db' obj = mesh_id db obj.
Proof.
  intros act f v Hin request queryset st obj db db'. subst db db'.
  rewrite (action_writes_db act f v request queryset st Hin).
  assert (f ∈ ["completed"; "hidden"; "banned"; "label"]) as Hf.
  { by_table Hin; repeat constructor. }
  clear Hin.
  repeat split.
  all: apply attr_update.
  all: repeat (apply elem_of_cons in Hf as [-> | Hf]);
    [ not_in_list .. | by apply elem_of_nil in Hf ].
Qed.

Lemma displayed_attributes_unchanged_by_actions_witness :
  ImageAdmin.get_mesh_id_verbose
    (st_db (MeshAdmin.mark_hidden empty_request (objects Mesh)
              {| st_db := labelled_db; st_messages := [] |}).2) "i1"
  = Some (VStr "IN-OD-stupa").
Proof.
  destruct (displayed_attributes_unchanged_by_actions MeshAdmin.mark_hidden
              "hidden" (VBool true) ltac:(repeat constructor) empty_request
              (objects Mesh) {| st_db := labelled_db; st_messages := [] |}
              "i1") as (_ & _ & Himage & _).
  exact Himage.
Defined.

(** X14: the pages agree on the verbose mesh identifier.  The ARK page
    shows the one of its Run, the Run page the one of its Mesh, the Image
    page the one of its Contribution, and the Contribution page and the
    contribution inline the one of the Mesh; a link that leads to no row
    gives no value on either side. *)
Theorem verbose_id_agrees_across_pages :
  ∀ (db : database) (obj k : string) (r : row),
    (db ARK !! obj = Some r → r !! "run" = Some (VStr k) →
     ARKAdmin.get_run db obj = Some (VStr k) ∧
     ARKAdmin.mesh_id_verbose db obj = RunAdmin.mesh_id_verbose db k) ∧
    (db Run !! obj = Some r → r !! "mesh" = Some (VStr k) →
     RunAdmin.mesh_id_verbose db obj = MeshAdmin.mesh_id_verbose db k) ∧
    (db Image !! obj = Some r → r !! "contribution" = Some (VStr k) →
     ImageAdmin.get_mesh_id_verbose db obj
       = ContributionAdmin.mesh_id_verbose db k) ∧
    (db Contribution !! obj = Some r → r !! "mesh" = Some (VStr k) →
     ContributionAdmin.mesh_id_verbose db obj
       = MeshAdmin.mesh_id_verbose db k ∧
     mesh_id db obj = MeshAdmin.mesh_id_verbose db k).
Proof.
  intros db obj k r.
  unfold ARKAdmin.get_run, ARKAdmin.mesh_id_verbose,
    RunAdmin.mesh_id_verbose, MeshAdmin.mesh_id_verbose,
    ImageAdmin.get_mesh_id_verbose, ContributionAdmin.mesh_id_verbose,
    mesh_id, attr.
  split; [| split; [| split ] ]; intros Hrow Hcol; rewrite Hrow;
    cbn [mbind option_bind]; rewrite ?follow_step, ?Hcol.
  - split; [ done |].
    change (fk_target ARK "run") with (Some Run). lazy beta iota.
    by destruct (db Run !! k).
  - change (fk_target Run "mesh") with (Some Mesh). lazy beta iota.
    by destruct (db Mesh !! k).
  - change (fk_target Image "contribution") with (Some Contribution). lazy beta iota.
    by destruct (db Contribution !! k).
  - change (fk_target Contribution "mesh") with (Some Mesh). lazy beta iota.
    by destruct (db Mesh !! k).
Qed.

Lemma verbose_id_agrees_across_pages_witness :
  ImageAdmin.get_mesh_id_verbose labelled_db "i1"
  = ContributionAdmin.mesh_id_verbose labelled_db "c1".
Proof.
  apply (verbose_id_agrees_across_pages labelled_db "i1" "c1"
           (example_image "c1" "good")).
  - vm_compute. reflexivity.
  - vm_compute. reflexivity.
Defined.
